(** * A chunked bump allocator (memory arena): model and verification

    Shallow embedding of package [arena]: the allocator core ([NewArena],
    [AllocBytes], [EnsureCapacity], [Reset], [Release], [grow],
    [panicIfReleased], [alignPtr]), the typed layer ([Alloc], [AllocZeroed],
    [AllocUninitialized]) and the metrics accessors ([SizeInUse],
    [NumChunks], [Capacity], [Utilization], [ChunkSize]).

    The sources hold three revisions of the core.  The development follows
    the one in which the current chunk is the last element of the chunk
    slice, recomputed at every call.  [CachedRevision] models the one that
    caches a pointer to the current chunk, and [InitialRevision] the first
    skeleton of the constructor; both are compared with the main model on
    the points where they could differ.

    Conventions.
    - The platform is a 64-bit one: [int] and [uintptr] are 64 bits wide and
      [unsafe.Sizeof(uintptr(0))] is 8.  Both types are carried by [Z]; every
      conversion and every addition that can leave the range is written with
      its wrap-around.
    - A byte slice that aliases a chunk buffer is a [region]: the index of
      the chunk, the first byte and the length.  The [nil] slice is [None].
    - A method on [*Arena] is a function [Arena -> result A]: it returns a
      value together with the updated arena, or it panics.
    - [make([]byte, size)] is taken to succeed for every non-negative size:
      the host allocator running out of memory is outside the model. *)

From Stdlib Require Import ZArith Lia Strings.Byte Floats Uint63.
From stdpp Require Import base option list.

Local Open Scope Z_scope.

(** ** Machine integers of the Go runtime (64-bit platform) *)

Module Go.

Definition wordBits : Z := 64.
Definition modulus : Z := 2 ^ wordBits.
Definition maxInt : Z := 2 ^ 63 - 1.
Definition minInt : Z := - 2 ^ 63.

(** Values an [int] can hold. *)
Definition is_int (z : Z) : Prop := minInt <= z <= maxInt.

(** [uintptr(z)]: reduction modulo 2^64. *)
Definition to_uintptr (z : Z) : Z := z mod modulus.

(** [int(z)]: the two's complement reading of the low 64 bits. *)
Definition to_int (z : Z) : Z := (z + 2 ^ 63) mod modulus - 2 ^ 63.

(** [x + y] on [uintptr] and on [int]. *)
Definition uadd (x y : Z) : Z := to_uintptr (x + y).
Definition iadd (x y : Z) : Z := to_int (x + y).

(** [^x] on [uintptr]: complement of the low 64 bits. *)
Definition unot (x : Z) : Z := Z.land (Z.lnot x) (Z.ones wordBits).

(** [unsafe.Sizeof(uintptr(0))]. *)
Definition ptrSize : Z := 8.

(** [float64(z)] for an [int] z: the nearest binary64 value.  The
    magnitude 2^63 of [minInt] does not fit the 63-bit conversion and is
    built as 2^62 * 2. *)
Definition to_float64 (z : Z) : float :=
  let m := Z.abs z in
  let f := if m <? 2 ^ 63
           then PrimFloat.of_uint63 (Uint63.of_Z m)
           else PrimFloat.mul (PrimFloat.of_uint63 (Uint63.of_Z (2 ^ 62))) 2%float in
  if z <? 0 then PrimFloat.opp f else f.

(** [len(l)] as an [int]. *)
Definition len {A : Type} (l : list A) : Z := Z.of_nat (length l).

End Go.

(** ** Data model *)

(** DefaultChunkSize is the default chunk size for new arenas (64 KiB). *)
Definition DefaultChunkSize : Z := Z.shiftl 1 16.

(** [chunk]: backing memory and the allocation offset within it. *)
Record chunk : Type := mkChunk {
  buf : list byte;
  offset : Z
}.

(** [Arena]: the chunk slice ([None] is the nil slice) and the configured
    chunk size. *)
Record Arena : Type := mkArena {
  chunks : option (list chunk);
  chunkSize : Z
}.

(** A byte slice pointing into a chunk buffer. *)
Record region : Type := mkRegion {
  r_chunk : Z;
  r_start : Z;
  r_len : Z
}.

(** The address [&b[0]] of the first byte of a slice. *)
Record pointer : Type := mkPointer {
  p_chunk : Z;
  p_off : Z
}.

(** ** Panics and the arena monad *)

Inductive panic : Type :=
| UseAfterRelease
| IndexOutOfRange
| SliceBoundsOutOfRange
| MakeSliceLenOutOfRange.

Inductive result (A : Type) : Type :=
| Ok (v : A) (a : Arena)
| Panic (p : panic).

Arguments Ok {A} v a.
Arguments Panic {A} p.

Definition M (A : Type) : Type := Arena -> result A.

Definition ret {A : Type} (v : A) : M A := fun a => Ok v a.

Definition bind {A B : Type} (m : M A) (k : A -> M B) : M B :=
  fun a => match m a with
           | Ok v a' => k v a'
           | Panic p => Panic p
           end.

Definition throw {A : Type} (p : panic) : M A := fun _ => Panic p.

Definition get : M Arena := fun a => Ok a a.

Definition put (a' : Arena) : M unit := fun _ => Ok tt a'.

Notation "x <- m ;; k" := (bind m (fun x => k))
  (at level 100, m at next level, right associativity).
Notation "m ;;; k" := (bind m (fun _ => k))
  (at level 100, right associativity).

(** ** Slice primitives *)

(** [len(a.chunks)]. *)
Definition len_chunks (a : Arena) : Z :=
  match chunks a with
  | None => 0
  | Some cs => Go.len cs
  end.

(** [make([]byte, size)]: a zero-filled buffer; a negative size panics. *)
Definition make_bytes (size : Z) : option (list byte) :=
  if size <? 0 then None else Some (replicate (Z.to_nat size) x00).

(** [append(cs, c)]; appending to the nil slice allocates a slice. *)
Definition append_chunk (cs : option (list chunk)) (c : chunk) : option (list chunk) :=
  match cs with
  | None => Some [c]
  | Some l => Some (l ++ [c])
  end.

(** [a.chunks[ci]], with the runtime's index check. *)
Definition chunk_at (ci : Z) : M chunk := fun a =>
  match chunks a with
  | None => Panic IndexOutOfRange
  | Some cs =>
      if ci <? 0 then Panic IndexOutOfRange
      else match cs !! Z.to_nat ci with
           | Some c => Ok c a
           | None => Panic IndexOutOfRange
           end
  end.

(** [a.chunks[ci] = c], through the pointer [&a.chunks[ci]]. *)
Definition store_chunk (ci : Z) (c : chunk) : M unit := fun a =>
  match chunks a with
  | None => Panic IndexOutOfRange
  | Some cs =>
      if (ci <? 0) || (Go.len cs <=? ci) then Panic IndexOutOfRange
      else Ok tt (mkArena (Some (<[Z.to_nat ci := c]> cs)) (chunkSize a))
  end.

(** [c.buf[start:end]]: the bounds check of a slice expression;
    [cap(c.buf) = len(c.buf)] for a buffer that [make] returned. *)
Definition slice_buf (ci : Z) (c : chunk) (start end_ : Z) : M (option region) :=
  if (0 <=? start) && (start <=? end_) && (end_ <=? Go.len (buf c))
  then ret (Some (mkRegion ci start (end_ - start)))
  else throw SliceBoundsOutOfRange.

(** ** The allocator core *)

(** alignPtr aligns the offset up to pointer size alignment. *)
Definition alignPtr (off : Z) : Z :=
  let align := Go.ptrSize in
  let mask := align - 1 in
  Z.land (Go.uadd off mask) (Go.unot mask).

(** panicIfReleased panics if the arena has been released. *)
Definition panicIfReleased : M unit := fun a =>
  match chunks a with
  | None => Panic UseAfterRelease
  | Some _ => Ok tt a
  end.

(** grow appends a new chunk of at least min bytes. *)
Definition grow (min : Z) : M unit := fun a =>
  let size := chunkSize a in
  let size := if min >? size then min else size in
  match make_bytes size with
  | None => Panic MakeSliceLenOutOfRange
  | Some b =>
      Ok tt (mkArena (append_chunk (chunks a) (mkChunk b 0)) (chunkSize a))
  end.

(** NewArena creates a new Arena with the specified chunk size.
    If chunkSize <= 0, DefaultChunkSize is used. *)
Definition NewArena (chunkSize : Z) : result unit :=
  let chunkSize := if chunkSize <=? 0 then DefaultChunkSize else chunkSize in
  grow chunkSize (mkArena None chunkSize).

(** AllocBytes returns a byte slice pointing into the arena's backing chunk.
    Returns nil if n <= 0. *)
Definition AllocBytes (n : Z) : M (option region) :=
  if n <=? 0 then ret None
  else
    panicIfReleased ;;;
    a <- get ;;
    let ci := len_chunks a - 1 in
    ci <- (if ci <? 0
           then grow n ;;; a <- get ;; ret (len_chunks a - 1)
           else ret ci) ;;
    c <- chunk_at ci ;;
    let off := alignPtr (offset c) in
    st <- (if Go.uadd (Go.to_uintptr n) off >? Go.to_uintptr (Go.len (buf c))
           then grow n ;;;
                a <- get ;;
                let ci := len_chunks a - 1 in
                c <- chunk_at ci ;;
                ret (ci, c, alignPtr (offset c))
           else ret (ci, c, off)) ;;
    let '(ci, c, off) := st in
    let start := Go.to_int off in
    let end_ := Go.iadd start n in
    store_chunk ci (mkChunk (buf c) (Go.to_uintptr end_)) ;;;
    slice_buf ci c start end_.

(** EnsureCapacity ensures the current chunk has at least n free bytes.
    If not, it grows the arena with a new chunk. *)
Definition EnsureCapacity (n : Z) : M unit :=
  panicIfReleased ;;;
  a <- get ;;
  let ci := len_chunks a - 1 in
  if ci <? 0 then grow n
  else
    c <- chunk_at ci ;;
    let off := alignPtr (offset c) in
    if Go.uadd (Go.to_uintptr n) off >? Go.to_uintptr (Go.len (buf c))
    then grow n
    else ret tt.

(** The loop [for i := range a.chunks { a.chunks[i].offset = 0 }]. *)
Definition reset_offsets (cs : list chunk) : list chunk :=
  map (fun c => mkChunk (buf c) 0) cs.

(** Reset resets allocation offsets to zero but keeps allocated chunks. *)
Definition Reset : M unit :=
  panicIfReleased ;;;
  a <- get ;;
  match chunks a with
  | None => ret tt
  | Some cs => put (mkArena (Some (reset_offsets cs)) (chunkSize a))
  end.

(** Release drops all chunks and makes the arena unusable. *)
Definition Release : M unit := fun a =>
  Ok tt (mkArena None (chunkSize a)).

(** ** Memory seen through slices and pointers *)

(** [len(b)] of a byte slice. *)
Definition slice_len (b : option region) : Z :=
  match b with
  | None => 0
  | Some r => r_len r
  end.

(** The [n] bytes of chunk [ci] from byte [start] on, when they exist. *)
Definition bytes_at (a : Arena) (ci start n : Z) : option (list byte) :=
  match chunks a with
  | None => None
  | Some cs =>
      if (ci <? 0) || (start <? 0) || (n <? 0) then None
      else match cs !! Z.to_nat ci with
           | None => None
           | Some c =>
               if start + n <=? Go.len (buf c)
               then Some (take (Z.to_nat n) (drop (Z.to_nat start) (buf c)))
               else None
           end
  end.

(** The contents of a slice. *)
Definition region_bytes (a : Arena) (r : region) : option (list byte) :=
  bytes_at a (r_chunk r) (r_start r) (r_len r).

(** The [size] bytes of the value a pointer refers to. *)
Definition pointee_bytes (a : Arena) (p : pointer) (size : Z) : option (list byte) :=
  bytes_at a (p_chunk p) (p_off p) size.

(** Overwrites the bytes of chunk [ci] from [start] on with [bs].  A slice
    of a released arena points to memory the arena no longer holds. *)
Definition write_bytes (ci start : Z) (bs : list byte) : M unit := fun a =>
  match chunks a with
  | None => Ok tt a
  | Some cs =>
      if (ci <? 0) || (start <? 0) then Ok tt a
      else
        Ok tt (mkArena
                 (Some (alter (fun c => mkChunk (list_inserts (Z.to_nat start) bs (buf c)) (offset c))
                              (Z.to_nat ci) cs))
                 (chunkSize a))
  end.

(** [clear(b)]: every byte of the slice becomes zero, in the buffer the
    slice aliases. *)
Definition clear (b : option region) : M unit :=
  match b with
  | None => ret tt
  | Some r => write_bytes (r_chunk r) (r_start r) (replicate (Z.to_nat (r_len r)) x00)
  end.

(** [&b[0]], with the runtime's index check. *)
Definition addr_of_first (b : option region) : M pointer :=
  if 0 <? slice_len b
  then match b with
       | Some r => ret (mkPointer (r_chunk r) (r_start r))
       | None => throw IndexOutOfRange
       end
  else throw IndexOutOfRange.

(** The client statement [b[i] = v] on a slice [b] the arena handed out. *)
Definition StoreByte (r : region) (i : Z) (v : byte) : M unit :=
  if (0 <=? i) && (i <? r_len r)
  then write_bytes (r_chunk r) (r_start r + i) [v]
  else throw IndexOutOfRange.

(** ** The typed allocation layer

    A type parameter [T] enters only through [unsafe.Sizeof(zero)], so the
    generic functions take that size. *)

(** Alloc returns a pointer to a T stored inside the arena with zeroed
    memory. *)
Definition Alloc (sizeofT : Z) : M pointer :=
  let size := sizeofT in
  b <- AllocBytes size ;;
  (if slice_len b >? 0 then clear b else ret tt) ;;;
  addr_of_first b.

(** AllocZeroed is identical to Alloc. *)
Definition AllocZeroed (sizeofT : Z) : M pointer := Alloc sizeofT.

(** AllocUninitialized returns a *T located in the arena without zeroing
    memory. *)
Definition AllocUninitialized (sizeofT : Z) : M pointer :=
  let size := sizeofT in
  b <- AllocBytes size ;;
  addr_of_first b.

(** ** Metrics *)

(** SizeInUse returns the total number of bytes currently allocated. *)
Definition SizeInUse (a : Arena) : Z :=
  match chunks a with
  | None => 0
  | Some cs => fold_left (fun sum c => Go.iadd sum (Go.to_int (offset c))) cs 0
  end.

(** NumChunks returns the number of chunks currently allocated. *)
Definition NumChunks (a : Arena) : Z :=
  match chunks a with
  | None => 0
  | Some cs => Go.len cs
  end.

(** Capacity returns the total capacity (in bytes) of all chunks. *)
Definition Capacity (a : Arena) : Z :=
  match chunks a with
  | None => 0
  | Some cs => fold_left (fun sum c => Go.iadd sum (Go.len (buf c))) cs 0
  end.

(** Utilization returns the ratio of bytes in use to total capacity.
    Returns 0.0 if the arena has no capacity. *)
Definition Utilization (a : Arena) : float :=
  let capacity := Capacity a in
  if capacity =? 0 then 0%float
  else PrimFloat.div (Go.to_float64 (SizeInUse a)) (Go.to_float64 capacity).

(** ChunkSize returns the default chunk size used by this arena. *)
Definition ChunkSize (a : Arena) : Z := chunkSize a.

(** ** Client programs

    A client holds one arena and calls its methods, the typed helpers, and
    writes through the slices it was given. *)

Inductive call : Type :=
| CallAllocBytes (n : Z)
| CallEnsureCapacity (n : Z)
| CallReset
| CallRelease
| CallAlloc (sizeofT : Z)
| CallAllocUninitialized (sizeofT : Z)
| CallStore (r : region) (i : Z) (v : byte).

Definition exec (c : call) : M unit :=
  match c with
  | CallAllocBytes n => AllocBytes n ;;; ret tt
  | CallEnsureCapacity n => EnsureCapacity n
  | CallReset => Reset
  | CallRelease => Release
  | CallAlloc sz => Alloc sz ;;; ret tt
  | CallAllocUninitialized sz => AllocUninitialized sz ;;; ret tt
  | CallStore r i v => StoreByte r i v
  end.

Fixpoint run (cs : list call) : M unit :=
  match cs with
  | [] => ret tt
  | c :: cs' => exec c ;;; run cs'
  end.

(** [NewArena(chunkSize)] followed by the calls. *)
Definition session (chunkSize : Z) (cs : list call) : result unit :=
  match NewArena chunkSize with
  | Ok _ a => run cs a
  | Panic p => Panic p
  end.

(** Arguments are [int]s; the size of a type is not negative. *)
Definition call_ok (c : call) : Prop :=
  match c with
  | CallAllocBytes n | CallEnsureCapacity n => Go.is_int n
  | CallAlloc sz | CallAllocUninitialized sz => 0 <= sz <= Go.maxInt
  | CallReset | CallRelease | CallStore _ _ _ => True
  end.

(** The calls of the allocator core that keep the arena alive. *)
Definition core_call (c : call) : bool :=
  match c with
  | CallAllocBytes _ | CallEnsureCapacity _ | CallReset => true
  | _ => false
  end.

Definition is_release (c : call) : bool :=
  match c with
  | CallRelease => true
  | _ => false
  end.

(** The state of the arena after a session, when no call panicked. *)
Definition final (r : result unit) : option Arena :=
  match r with
  | Ok _ a => Some a
  | Panic _ => None
  end.

(** ** Invariants *)

(** A chunk of an arena configured with chunk size [csz]: the offset lies
    within the buffer, whose length is an [int] not below [csz]. *)
Definition chunk_ok (csz : Z) (c : chunk) : Prop :=
  0 <= offset c <= Go.len (buf c) /\ csz <= Go.len (buf c) <= Go.maxInt.

(** A live arena: constructed, not released. *)
Definition live (a : Arena) : Prop :=
  exists l, chunks a = Some l /\ l <> [] /\
            0 < chunkSize a <= Go.maxInt /\
            Forall (chunk_ok (chunkSize a)) l.

(** A released arena. *)
Definition released (a : Arena) : Prop := chunks a = None.

(** [len(buf)] of the chunk that receives allocations: the last one. *)
Definition current_capacity (a : Arena) : Z :=
  match chunks a with
  | None => 0
  | Some l => match last l with
              | None => 0
              | Some c => Go.len (buf c)
              end
  end.

(** The request [n] fits in the current chunk after alignment: the
    negation of the test before [a.grow(n)]. *)
Definition fits (a : Arena) (n : Z) : bool :=
  match chunks a with
  | None => false
  | Some l => match last l with
              | None => false
              | Some c =>
                  negb (Go.uadd (Go.to_uintptr n) (alignPtr (offset c))
                          >? Go.to_uintptr (Go.len (buf c)))
              end
  end.


(** The arenas a client can hold: built by [NewArena] and changed by calls
    only (the fields are not exported). *)
Definition reachable (a : Arena) : Prop :=
  exists (chunkSize : Z) (cs : list call),
    Go.is_int chunkSize /\ Forall call_ok cs /\ session chunkSize cs = Ok tt a.

(** The chunk buffers, in order. *)
Definition buffers (a : Arena) : list (list byte) :=
  match chunks a with
  | None => []
  | Some l => map buf l
  end.

(** ** Sample arenas *)

(** After [NewArena(16)] and [AllocBytes(3)]. *)
Definition arena_16_used_3 : Arena :=
  mkArena (Some [mkChunk (replicate 16 x00) 3]) 16.

(** After [NewArena(16)] and [AllocBytes(100)]: the request did not fit
    and a second chunk of 100 bytes holds it. *)
Definition arena_16_and_100 : Arena :=
  mkArena (Some [mkChunk (replicate 16 x00) 0; mkChunk (replicate 100 x00) 100]) 16.

(** After [NewArena(16)], [b := AllocBytes(8)], [b[0] = 0xff] and [Reset()]:
    the first byte of the chunk is stale. *)
Definition arena_16_stale : Arena :=
  mkArena (Some [mkChunk (xff :: replicate 15 x00) 0]) 16.

(** ** The first revision of the constructor

    [src/arena.go] holds the skeleton the package started from: the
    constructor and [grow] only, with an unexported default of 1 MiB. *)

Module InitialRevision.

Record Chunk : Type := mkChunk {
  buffer : list byte;
  offset : Z
}.

Record Arena : Type := mkArena {
  chunks : option (list Chunk);
  chunkSize : Z
}.

Definition defaultChunkSize : Z := 1024 * 1024.

Definition grow (minSize : Z) (a : Arena) : option Arena :=
  let size := chunkSize a in
  let size := if minSize >? size then minSize else size in
  match make_bytes size with
  | None => None
  | Some chunk =>
      Some (mkArena
              (Some (match chunks a with
                     | None => [mkChunk chunk 0]
                     | Some l => l ++ [mkChunk chunk 0]
                     end))
              (chunkSize a))
  end.

Definition NewArena (chunkSize : Z) : option Arena :=
  let chunkSize := if chunkSize <=? 0 then defaultChunkSize else chunkSize in
  grow chunkSize (mkArena None chunkSize).

End InitialRevision.

(** ** The revision with a cached current chunk

    The other revision of the core keeps [currentChunk *chunk], a pointer
    into the chunk slice: [grow] and the slow path of [AllocBytes] point it
    at the last chunk, [Reset] at the first.  Every [append] is followed by
    such an assignment, so the pointer always refers to an element of the
    slice in use and is carried as its index. *)

Module CachedRevision.

Record Arena : Type := mkArena {
  chunks : option (list chunk);
  chunkSize : Z;
  currentChunk : option Z
}.

Inductive result (A : Type) : Type :=
| Ok (v : A) (a : Arena)
| Panic (p : panic).

Arguments Ok {A} v a.
Arguments Panic {A} p.

Definition len_chunks (a : Arena) : Z :=
  match chunks a with
  | None => 0
  | Some cs => Go.len cs
  end.

(** [*p] for the pointer [p = &a.chunks[i]]. *)
Definition deref (a : Arena) (i : Z) : option chunk :=
  match chunks a with
  | None => None
  | Some cs => if i <? 0 then None else cs !! Z.to_nat i
  end.

(** [p.offset = o] for the pointer [p = &a.chunks[i]]. *)
Definition set_offset (i o : Z) (a : Arena) : Arena :=
  mkArena
    (match chunks a with
     | None => None
     | Some cs => Some (alter (fun c => mkChunk (buf c) o) (Z.to_nat i) cs)
     end)
    (chunkSize a) (currentChunk a).

(** [unsafe.Slice(&c.buf[start], n)], with the index check of
    [c.buf[start]]. *)
Definition slice_at (i : Z) (c : chunk) (start n : Z) (a : Arena)
  : result (option region) :=
  if (0 <=? start) && (start <? Go.len (buf c))
  then Ok (Some (mkRegion i start n)) a
  else Panic IndexOutOfRange.

(** grow appends a new chunk of at least min bytes. *)
Definition grow (min : Z) (a : Arena) : result unit :=
  let size := chunkSize a in
  let size := if min >? size then min else size in
  match make_bytes size with
  | None => Panic MakeSliceLenOutOfRange
  | Some b =>
      let cs := append_chunk (chunks a) (mkChunk b 0) in
      let a := mkArena cs (chunkSize a) (currentChunk a) in
      Ok tt (mkArena cs (chunkSize a) (Some (len_chunks a - 1)))
  end.

Definition NewArena (chunkSize : Z) : result unit :=
  let chunkSize := if chunkSize <=? 0 then DefaultChunkSize else chunkSize in
  match grow chunkSize (mkArena None chunkSize None) with
  | Panic p => Panic p
  | Ok _ a =>
      if len_chunks a >? 0
      then Ok tt (mkArena (chunks a) (CachedRevision.chunkSize a) (Some (len_chunks a - 1)))
      else Ok tt a
  end.

(** allocBytesSlow handles allocation when fast path fails. *)
Definition allocBytesSlow (n : Z) (a : Arena) : result (option region) :=
  match chunks a with
  | None => Panic UseAfterRelease
  | Some _ =>
      match grow n a with
      | Panic p => Panic p
      | Ok _ a =>
          let i := len_chunks a - 1 in
          let a := mkArena (chunks a) (chunkSize a) (Some i) in
          match deref a i with
          | None => Panic IndexOutOfRange
          | Some c =>
              let off := alignPtr (offset c) in
              let start := Go.to_int off in
              let a := set_offset i (Go.uadd off (Go.to_uintptr n)) a in
              slice_at i c start n a
          end
      end
  end.

Definition AllocBytes (n : Z) (a : Arena) : result (option region) :=
  if n <=? 0 then Ok None a
  else
    match currentChunk a with
    | None => allocBytesSlow n a
    | Some i =>
        match deref a i with
        | None => Panic IndexOutOfRange
        | Some c =>
            let off := alignPtr (offset c) in
            if Go.uadd off (Go.to_uintptr n) <=? Go.to_uintptr (Go.len (buf c))
            then
              let start := Go.to_int off in
              let a := set_offset i (Go.uadd off (Go.to_uintptr n)) a in
              slice_at i c start n a
            else allocBytesSlow n a
        end
    end.

Definition EnsureCapacity (n : Z) (a : Arena) : result unit :=
  match chunks a with
  | None => Panic UseAfterRelease
  | Some _ =>
      let ci := len_chunks a - 1 in
      if ci <? 0 then grow n a
      else
        match deref a ci with
        | None => Panic IndexOutOfRange
        | Some c =>
            let off := alignPtr (offset c) in
            if Go.uadd (Go.to_uintptr n) off >? Go.to_uintptr (Go.len (buf c))
            then grow n a
            else Ok tt a
        end
  end.

Definition Reset (a : Arena) : result unit :=
  match chunks a with
  | None => Panic UseAfterRelease
  | Some cs =>
      let cs := reset_offsets cs in
      Ok tt (mkArena (Some cs) (chunkSize a)
                     (if Go.len cs >? 0 then Some 0 else currentChunk a))
  end.

Definition Release (a : Arena) : result unit :=
  Ok tt (mkArena None (chunkSize a) None).

Definition NumChunks (a : Arena) : Z := len_chunks a.

(** The arena after a call that did not panic. *)
Definition after {A : Type} (r : result A) : option Arena :=
  match r with
  | Ok _ a => Some a
  | Panic _ => None
  end.

(** The next call on the same arena. *)
Definition and_then {A B : Type} (r : result A) (k : Arena -> result B) : result B :=
  match r with
  | Ok _ a => k a
  | Panic p => Panic p
  end.

End CachedRevision.

(** ** Slices of typed elements

    [AllocSlice] and [AllocSliceZeroed] view the reserved bytes as [n]
    elements of [elemSize] bytes each through [unsafe.Slice]. *)

(** A [[]T] made by [unsafe.Slice]: the first element and the length. *)
Record typed_slice : Type := mkTyped {
  ts_ptr : pointer;
  ts_len : Z
}.

(** The typed functions panic like the core, or in [unsafe.Slice]. *)
Inductive typed_panic : Type :=
| CorePanic (p : panic)
| UnsafeSliceLenOutOfRange.

Inductive typed_result : Type :=
| TypedOk (s : option typed_slice) (a : Arena)
| TypedPanic (p : typed_panic).

(** [elemSize * n] on [int]. *)
Definition imul (x y : Z) : Z := Go.to_int (x * y).

(** [unsafe.Slice(ptr, n)] for elements of [elemSize] bytes: the runtime
    refuses a negative length and a byte size that does not fit [uintptr].
    (It also refuses a range that runs past the end of the address space,
    which memory inside a chunk buffer never does.) *)
Definition unsafe_Slice (elemSize : Z) (p : pointer) (n : Z) : option typed_slice :=
  if (n <? 0) || (Go.modulus <=? elemSize * n) then None
  else Some (mkTyped p n).

(** AllocSlice allocates a slice of n elements of type T inside the arena.
    The slice elements are not initialized.  Returns nil if n <= 0. *)
Definition AllocSlice (sizeofT : Z) (n : Z) (a : Arena) : typed_result :=
  if n <=? 0 then TypedOk None a
  else
    let elemSize := sizeofT in
    let total := imul elemSize n in
    match (b <- AllocBytes total ;; p <- addr_of_first b ;; ret p) a with
    | Panic p => TypedPanic (CorePanic p)
    | Ok p a' =>
        match unsafe_Slice elemSize p n with
        | None => TypedPanic UnsafeSliceLenOutOfRange
        | Some s => TypedOk (Some s) a'
        end
    end.

(** AllocSliceZeroed allocates a slice of n elements of type T with zeroed
    memory. *)
Definition AllocSliceZeroed (sizeofT : Z) (n : Z) (a : Arena) : typed_result :=
  if n <=? 0 then TypedOk None a
  else
    let elemSize := sizeofT in
    let total := imul elemSize n in
    match (b <- AllocBytes total ;;
           (if slice_len b >? 0 then clear b else ret tt) ;;;
           p <- addr_of_first b ;; ret p) a with
    | Panic p => TypedPanic (CorePanic p)
    | Ok p a' =>
        match unsafe_Slice elemSize p n with
        | None => TypedPanic UnsafeSliceLenOutOfRange
        | Some s => TypedOk (Some s) a'
        end
    end.

(** ** Regions handed out in a row *)






(** The sums behind [SizeInUse] and [Capacity] without wrap-around. *)
Definition total_offsets (l : list chunk) : Z :=
  fold_right (fun c sum => offset c + sum) 0 l.

Definition total_lens (l : list chunk) : Z :=
  fold_right (fun c sum => Go.len (buf c) + sum) 0 l.

(** A computation that leaves the configured chunk size alone. *)
Definition keeps_chunkSize {A : Type} (m : M A) : Prop :=
  forall a v a', m a = Ok v a' -> chunkSize a' = chunkSize a.

(** ** Arithmetic of the machine integers *)

Section GoArith.

Lemma to_uintptr_small (z : Z) : 0 <= z < Go.modulus -> Go.to_uintptr z = z.
Proof. intros H. unfold Go.to_uintptr. now apply Z.mod_small. Qed.

Lemma to_int_small (z : Z) : Go.is_int z -> Go.to_int z = z.
Proof.
  unfold Go.is_int, Go.minInt, Go.maxInt, Go.to_int, Go.modulus, Go.wordBits.
  intros H. rewrite Z.mod_small; lia.
Qed.


(** Masking with [^7] clears the three low bits of a 64-bit value. *)
Lemma land_unot_mask (x : Z) :
  0 <= x < Go.modulus -> Z.land x (Go.unot 7) = x / 8 * 8.
Proof.
  intros Hx. unfold Go.unot, Go.wordBits.
  rewrite (Z.land_comm (Z.lnot 7)), Z.land_assoc.
  rewrite Z.land_ones by lia.
  rewrite Z.mod_small by exact Hx.
  change 7 with (Z.ones 3).
  rewrite <- Z.ldiff_land, Z.ldiff_ones_r by lia.
  rewrite Z.shiftr_div_pow2, Z.shiftl_mul_pow2 by lia.
  reflexivity.
Qed.

Lemma alignPtr_eq (off : Z) :
  alignPtr off = Go.to_uintptr (off + 7) / 8 * 8.
Proof.
  unfold alignPtr, Go.uadd, Go.ptrSize. cbn [Z.sub Z.add Z.pos_sub Z.opp Pos.pred_double].
  change (8 - 1) with 7.
  apply land_unot_mask. unfold Go.to_uintptr, Go.modulus, Go.wordBits.
  apply Z.mod_pos_bound. lia.
Qed.

(** The aligned offset is always a multiple of the pointer size. *)
Lemma alignPtr_aligned (off : Z) : alignPtr off mod Go.ptrSize = 0.
Proof. rewrite alignPtr_eq. unfold Go.ptrSize. apply Z.mod_mul. lia. Qed.

(** Without wrap-around it rounds up by less than one word. *)
Lemma alignPtr_round_up (off : Z) :
  0 <= off <= Go.maxInt -> off <= alignPtr off < off + Go.ptrSize.
Proof.
  unfold Go.maxInt, Go.ptrSize. intros H. rewrite alignPtr_eq.
  rewrite to_uintptr_small by (unfold Go.modulus, Go.wordBits; lia).
  pose proof (Z.div_mod (off + 7) 8 ltac:(lia)).
  pose proof (Z.mod_pos_bound (off + 7) 8 ltac:(lia)). lia.
Qed.

Lemma alignPtr_nonneg (off : Z) : 0 <= alignPtr off.
Proof.
  rewrite alignPtr_eq.
  pose proof (Z.mod_pos_bound (off + 7) Go.modulus ltac:(reflexivity)) as B.
  unfold Go.to_uintptr.
  pose proof (Z.div_pos ((off + 7) mod Go.modulus) 8 ltac:(lia) ltac:(lia)). lia.
Qed.

Lemma alignPtr_0 : alignPtr 0 = 0.
Proof. reflexivity. Qed.

Lemma alignPtr_le_max (off : Z) :
  0 <= off <= Go.maxInt -> alignPtr off <= Go.maxInt + 1.
Proof.
  intros H. pose proof (alignPtr_round_up off H) as B.
  pose proof (alignPtr_aligned off) as A. unfold Go.ptrSize, Go.maxInt in *.
  (* the next multiple of 8 above 2^63 - 1 is 2^63 *)
  destruct (Z.le_gt_cases (alignPtr off) (2 ^ 63)) as [|G]; [lia|].
  exfalso. apply Z.mod_divide in A; [|lia]. destruct A as [k Hk].
  change (2 ^ 63) with (1152921504606846976 * 8) in *. lia.
Qed.

End GoArith.

(** The cases of [TestAlignPtr]. *)
Example alignPtr_samples :
  alignPtr 0 = 0 /\ alignPtr 1 = 8 /\ alignPtr 8 = 8 /\ alignPtr 9 = 16.
Proof. repeat split. Qed.

(** [NewArena(1024)], [AllocBytes(100)], [AllocBytes(2000)]: two chunks. *)
Example session_two_chunks :
  let a := final (session 1024 [CallAllocBytes 100; CallAllocBytes 2000]) in
  fmap NumChunks a = Some 2 /\ fmap SizeInUse a = Some 2100 /\
  fmap Capacity a = Some 3024.
Proof. vm_compute. repeat split. Qed.

(** 100 bytes used of 116. *)
Example utilization_sample :
  Utilization arena_16_and_100 = PrimFloat.div 100%float 116%float.
Proof. vm_compute. reflexivity. Qed.

Example to_float64_samples :
  Go.to_float64 (-3) = (-3)%float /\
  Go.to_float64 Go.minInt = (-9223372036854775808)%float.
Proof. vm_compute. split; reflexivity. Qed.

(** ** Slices of chunks *)

Section ChunkSlice.

Implicit Types (l : list chunk) (c : chunk).

Lemma len_nonneg {A : Type} (l : list A) : 0 <= Go.len l.
Proof. unfold Go.len. lia. Qed.

Lemma len_snoc l c : Go.len (l ++ [c]) = Go.len l + 1.
Proof. unfold Go.len. rewrite length_app. simpl. lia. Qed.

Lemma len_replicate (n : Z) (b : byte) :
  0 <= n -> Go.len (replicate (Z.to_nat n) b) = n.
Proof. intros H. unfold Go.len. rewrite length_replicate. lia. Qed.

Lemma make_bytes_Some (size : Z) :
  0 <= size -> make_bytes size = Some (replicate (Z.to_nat size) x00).
Proof. intros H. unfold make_bytes. destruct (Z.ltb_spec size 0); [lia|reflexivity]. Qed.

Lemma chunk_at_last l c csz :
  chunk_at (Go.len l) (mkArena (Some (l ++ [c])) csz)
  = Ok c (mkArena (Some (l ++ [c])) csz).
Proof.
  unfold chunk_at. cbn [chunks].
  destruct (Z.ltb_spec (Go.len l) 0) as [H|_].
  - pose proof (len_nonneg l). lia.
  - unfold Go.len. rewrite Nat2Z.id, list_lookup_middle by reflexivity. reflexivity.
Qed.

Lemma store_chunk_last l c c' csz :
  store_chunk (Go.len l) c' (mkArena (Some (l ++ [c])) csz)
  = Ok tt (mkArena (Some (l ++ [c'])) csz).
Proof.
  unfold store_chunk. cbn [chunks chunkSize].
  rewrite len_snoc.
  destruct (Z.ltb_spec (Go.len l) 0) as [H|_]; [pose proof (len_nonneg l); lia|].
  destruct (Z.leb_spec (Go.len l + 1) (Go.len l)) as [H|_]; [lia|].
  cbn [orb]. unfold Go.len. rewrite Nat2Z.id.
  rewrite insert_app_r_alt by lia. rewrite Nat.sub_diag. reflexivity.
Qed.

Lemma len_chunks_snoc l c csz :
  len_chunks (mkArena (Some (l ++ [c])) csz) - 1 = Go.len l.
Proof. unfold len_chunks. cbn [chunks]. rewrite len_snoc. lia. Qed.

(** A non-empty slice ends with its current chunk. *)
Lemma snoc_of_nonempty l : l <> [] -> exists l0 c, l = l0 ++ [c].
Proof.
  intros H. destruct (exists_last H) as (l0 & c & ->). eauto.
Qed.

End ChunkSlice.

(** ** What one call does to a live arena *)

Section CoreCalls.

Implicit Types (l : list chunk) (c : chunk) (n csz : Z).

(** The bound check of [AllocBytes] and [EnsureCapacity] does not wrap
    for a positive request on a well-formed chunk. *)
Lemma room_test_pos c n :
  0 <= offset c <= Go.len (buf c) -> Go.len (buf c) <= Go.maxInt ->
  0 < n <= Go.maxInt ->
  (Go.uadd (Go.to_uintptr n) (alignPtr (offset c)) >? Go.to_uintptr (Go.len (buf c)))
  = (n + alignPtr (offset c) >? Go.len (buf c)).
Proof.
  intros Ho Hl Hn.
  assert (Hoff : 0 <= offset c <= Go.maxInt) by lia.
  pose proof (alignPtr_round_up _ Hoff) as R.
  pose proof (alignPtr_le_max _ Hoff) as Mx.
  unfold Go.maxInt, Go.ptrSize in *.
  unfold Go.uadd.
  rewrite (to_uintptr_small n) by (unfold Go.modulus, Go.wordBits; lia).
  rewrite (to_uintptr_small (n + _)) by (unfold Go.modulus, Go.wordBits; lia).
  rewrite (to_uintptr_small (Go.len _)) by (unfold Go.modulus, Go.wordBits; lia).
  reflexivity.
Qed.

(** Fast case: the aligned request fits in the current chunk. *)
Lemma AllocBytes_fit l c csz n :
  0 <= offset c <= Go.len (buf c) -> Go.len (buf c) <= Go.maxInt ->
  0 < n ->
  n + alignPtr (offset c) <= Go.len (buf c) ->
  AllocBytes n (mkArena (Some (l ++ [c])) csz)
  = Ok (Some (mkRegion (Go.len l) (alignPtr (offset c)) n))
       (mkArena (Some (l ++ [mkChunk (buf c) (alignPtr (offset c) + n)])) csz).
Proof.
  intros Ho Hl Hn Hfit.
  assert (Hoff : 0 <= offset c <= Go.maxInt) by lia.
  pose proof (alignPtr_round_up _ Hoff) as R.
  assert (Hn' : 0 < n <= Go.maxInt) by lia.
  unfold AllocBytes.
  destruct (Z.leb_spec n 0) as [?|_]; [lia|].
  unfold bind at 1. unfold panicIfReleased. cbn [chunks].
  unfold bind at 1. unfold get.
  rewrite !len_chunks_snoc.
  destruct (Z.ltb_spec (Go.len l) 0) as [?|_]; [pose proof (len_nonneg l); lia|].
  unfold bind at 1. unfold ret at 1.
  unfold bind at 1. rewrite chunk_at_last.
  rewrite room_test_pos by assumption.
  destruct (Z.gtb_spec (n + alignPtr (offset c)) (Go.len (buf c))) as [?|_]; [lia|].
  unfold bind at 1. unfold ret at 1.
  unfold Go.iadd.
  rewrite (to_int_small (alignPtr (offset c))) by (unfold Go.is_int, Go.minInt, Go.maxInt in *; lia).
  rewrite (to_int_small (_ + n)) by (unfold Go.is_int, Go.minInt, Go.maxInt in *; lia).
  rewrite to_uintptr_small by (unfold Go.modulus, Go.wordBits, Go.maxInt in *; lia).
  unfold bind at 1. rewrite store_chunk_last.
  unfold slice_buf.
  destruct (Z.leb_spec 0 (alignPtr (offset c))) as [_|?]; [|lia].
  destruct (Z.leb_spec (alignPtr (offset c)) (alignPtr (offset c) + n)) as [_|?]; [|lia].
  destruct (Z.leb_spec (alignPtr (offset c) + n) (Go.len (buf c))) as [_|?]; [|lia].
  cbn [andb]. unfold ret. do 3 f_equal. lia.
Qed.

(** Slow case: the request does not fit, one chunk is appended. *)
Lemma AllocBytes_grow l c csz n :
  0 <= offset c <= Go.len (buf c) -> Go.len (buf c) <= Go.maxInt ->
  0 < n <= Go.maxInt -> 0 < csz ->
  Go.len (buf c) < n + alignPtr (offset c) ->
  AllocBytes n (mkArena (Some (l ++ [c])) csz)
  = Ok (Some (mkRegion (Go.len l + 1) 0 n))
       (mkArena (Some ((l ++ [c]) ++
                         [mkChunk (replicate (Z.to_nat (Z.max csz n)) x00) n])) csz).
Proof.
  intros Ho Hl Hn Hcsz Hfit.
  unfold AllocBytes.
  destruct (Z.leb_spec n 0) as [?|_]; [lia|].
  unfold bind at 1. unfold panicIfReleased. cbn [chunks].
  unfold bind at 1. unfold get.
  rewrite !len_chunks_snoc.
  destruct (Z.ltb_spec (Go.len l) 0) as [?|_]; [pose proof (len_nonneg l); lia|].
  unfold bind at 1. unfold ret at 1.
  unfold bind at 1. rewrite chunk_at_last.
  rewrite room_test_pos by assumption.
  destruct (Z.gtb_spec (n + alignPtr (offset c)) (Go.len (buf c))) as [_|?]; [|lia].
  unfold bind at 1. unfold bind at 1. unfold grow. cbn [chunks chunkSize append_chunk].
  assert (Hsz : (if n >? csz then n else csz) = Z.max csz n).
  { destruct (Z.gtb_spec n csz); lia. }
  rewrite Hsz, make_bytes_Some by lia.
  unfold bind at 1. rewrite !len_chunks_snoc.
  unfold bind at 1. rewrite chunk_at_last.
  unfold ret at 1. cbn [offset buf]. rewrite alignPtr_0.
  unfold Go.iadd.
  rewrite (to_int_small 0) by (unfold Go.is_int, Go.minInt, Go.maxInt; lia).
  rewrite (to_int_small (0 + n)) by (unfold Go.is_int, Go.minInt, Go.maxInt in *; lia).
  rewrite to_uintptr_small by (unfold Go.modulus, Go.wordBits, Go.maxInt in *; lia).
  unfold bind at 1. rewrite store_chunk_last.
  unfold slice_buf. cbn [buf].
  rewrite len_replicate by lia.
  destruct (Z.leb_spec 0 (0 + n)) as [_|?]; [|lia].
  destruct (Z.leb_spec (0 + n) (Z.max csz n)) as [_|?]; [|lia].
  cbn [andb Z.leb Z.compare]. unfold ret. rewrite len_snoc.
  do 3 f_equal; lia.
Qed.

End CoreCalls.

(** ** The invariant of a live arena *)

Section Invariant.

Implicit Types (l : list chunk) (c : chunk) (n csz : Z) (a : Arena).

Lemma arena_eta a : a = mkArena (chunks a) (chunkSize a).
Proof. destruct a; reflexivity. Qed.

Lemma live_intro l csz :
  l <> [] -> 0 < csz <= Go.maxInt -> Forall (chunk_ok csz) l ->
  live (mkArena (Some l) csz).
Proof. intros. exists l. cbn [chunks chunkSize]. auto. Qed.

(** A live arena ends with its current chunk. *)
Lemma live_snoc a :
  live a ->
  exists l c, a = mkArena (Some (l ++ [c])) (chunkSize a) /\
              0 < chunkSize a <= Go.maxInt /\
              Forall (chunk_ok (chunkSize a)) l /\ chunk_ok (chunkSize a) c.
Proof.
  intros (l & Hl & Hne & Hcs & Hall).
  destruct (snoc_of_nonempty l Hne) as (l0 & c & ->).
  apply Forall_app in Hall as [H0 Hc]. rewrite Forall_singleton in Hc.
  exists l0, c. rewrite <- Hl. split; [apply arena_eta|]. auto.
Qed.

Lemma live_not_released a : live a -> chunks a <> None.
Proof. intros (l & -> & _). discriminate. Qed.

Lemma live_append l csz size o :
  live (mkArena (Some l) csz) ->
  0 <= o <= size -> csz <= size <= Go.maxInt ->
  live (mkArena (Some (l ++ [mkChunk (replicate (Z.to_nat size) x00) o])) csz).
Proof.
  intros (l' & Hl & Hne & Hcs & Hall) Ho Hsz. cbn [chunks chunkSize] in *.
  injection Hl as <-.
  apply live_intro; [destruct l; discriminate|assumption|].
  apply Forall_app. split; [assumption|]. apply Forall_singleton.
  unfold chunk_ok. cbn [buf offset]. rewrite len_replicate by lia. lia.
Qed.

Lemma live_bump l c csz o :
  live (mkArena (Some (l ++ [c])) csz) ->
  0 <= o <= Go.len (buf c) ->
  live (mkArena (Some (l ++ [mkChunk (buf c) o])) csz).
Proof.
  intros (l' & Hl & Hne & Hcs & Hall) Ho. cbn [chunks chunkSize] in *.
  injection Hl as <-.
  apply Forall_app in Hall as [H0 Hc]. rewrite Forall_singleton in Hc.
  apply live_intro; [destruct l; discriminate|assumption|].
  apply Forall_app. split; [assumption|]. apply Forall_singleton.
  unfold chunk_ok in *. cbn [buf offset]. lia.
Qed.

(** [NewArena] on an [int]: one zero-filled chunk of the resolved size. *)
Lemma NewArena_eq csz :
  let size := if csz <=? 0 then DefaultChunkSize else csz in
  NewArena csz = Ok tt (mkArena (Some [mkChunk (replicate (Z.to_nat size) x00) 0]) size).
Proof.
  intros size. unfold NewArena. fold size. unfold grow.
  cbn [chunks chunkSize append_chunk].
  assert (Hpos : 0 < size).
  { subst size. destruct (Z.leb_spec csz 0); [reflexivity|lia]. }
  destruct (Z.gtb_spec size size) as [?|_]; [lia|].
  rewrite make_bytes_Some by lia. reflexivity.
Qed.

Lemma resolved_size_bounds csz :
  Go.is_int csz ->
  0 < (if csz <=? 0 then DefaultChunkSize else csz) <= Go.maxInt.
Proof.
  unfold Go.is_int. intros [_ H].
  destruct (Z.leb_spec csz 0); [split; reflexivity || discriminate|lia].
Qed.

Lemma NewArena_live csz :
  Go.is_int csz -> exists a, NewArena csz = Ok tt a /\ live a.
Proof.
  intros Hi. pose proof (resolved_size_bounds csz Hi) as Hb.
  eexists. split; [apply NewArena_eq|].
  apply live_intro; [discriminate|assumption|].
  apply Forall_singleton. unfold chunk_ok. cbn [buf offset].
  rewrite len_replicate by lia. lia.
Qed.

Lemma fits_last l c csz n :
  fits (mkArena (Some (l ++ [c])) csz) n
  = negb (Go.uadd (Go.to_uintptr n) (alignPtr (offset c))
            >? Go.to_uintptr (Go.len (buf c))).
Proof. unfold fits. cbn [chunks]. rewrite last_snoc. reflexivity. Qed.

(** The two outcomes of [AllocBytes] for a positive request on a live
    arena, told apart by [fits]. *)
Lemma AllocBytes_cases a n :
  live a -> 0 < n <= Go.maxInt ->
  exists l c,
    a = mkArena (Some (l ++ [c])) (chunkSize a) /\
    ((fits a n = true /\
      n + alignPtr (offset c) <= Go.len (buf c) /\
      AllocBytes n a
      = Ok (Some (mkRegion (Go.len l) (alignPtr (offset c)) n))
           (mkArena (Some (l ++ [mkChunk (buf c) (alignPtr (offset c) + n)]))
                    (chunkSize a)))
     \/
     (fits a n = false /\
      Go.len (buf c) < n + alignPtr (offset c) /\
      AllocBytes n a
      = Ok (Some (mkRegion (Go.len l + 1) 0 n))
           (mkArena (Some ((l ++ [c]) ++
                             [mkChunk (replicate (Z.to_nat (Z.max (chunkSize a) n)) x00) n]))
                    (chunkSize a)))).
Proof.
  intros Hlive Hn.
  destruct (live_snoc a Hlive) as (l & c & Ha & Hcs & Hall & [Ho Hb]).
  destruct a as [chs csz]. cbn [chunkSize] in *. injection Ha as ->.
  exists l, c. split; [reflexivity|].
  rewrite fits_last, room_test_pos by (assumption || lia).
  destruct (Z.gtb_spec (n + alignPtr (offset c)) (Go.len (buf c))) as [Hgt|Hle].
  - right. split; [reflexivity|]. split; [lia|].
    apply AllocBytes_grow; lia.
  - left. split; [reflexivity|]. split; [lia|].
    apply AllocBytes_fit; lia.
Qed.

End Invariant.

(** ** The other calls *)

Section OtherCalls.

Implicit Types (l : list chunk) (c : chunk) (n csz : Z) (a : Arena).

Lemma grow_eq l csz n :
  0 < csz -> 
  grow n (mkArena (Some l) csz)
  = Ok tt (mkArena (Some (l ++ [mkChunk (replicate (Z.to_nat (Z.max csz n)) x00) 0])) csz).
Proof.
  intros Hcsz. unfold grow. cbn [chunks chunkSize append_chunk].
  assert (Hsz : (if n >? csz then n else csz) = Z.max csz n).
  { destruct (Z.gtb_spec n csz); lia. }
  rewrite Hsz, make_bytes_Some by lia. reflexivity.
Qed.

(** [EnsureCapacity] leaves a live arena as it is or appends one chunk. *)
Lemma EnsureCapacity_cases a n :
  live a ->
  exists l, chunks a = Some l /\
    (EnsureCapacity n a = Ok tt a \/
     EnsureCapacity n a
     = Ok tt (mkArena (Some (l ++ [mkChunk (replicate (Z.to_nat (Z.max (chunkSize a) n)) x00) 0]))
                      (chunkSize a))).
Proof.
  intros Hlive.
  destruct (live_snoc a Hlive) as (l & c & Ha & Hcs & Hall & [Ho Hb]).
  destruct a as [chs csz]. cbn [chunkSize chunks] in *. injection Ha as ->.
  exists (l ++ [c]). split; [reflexivity|].
  assert (E : EnsureCapacity n (mkArena (Some (l ++ [c])) csz)
              = if Go.uadd (Go.to_uintptr n) (alignPtr (offset c))
                     >? Go.to_uintptr (Go.len (buf c))
                then grow n (mkArena (Some (l ++ [c])) csz)
                else Ok tt (mkArena (Some (l ++ [c])) csz)).
  { unfold EnsureCapacity.
    unfold bind at 1. unfold panicIfReleased. cbn [chunks].
    unfold bind at 1. unfold get.
    rewrite !len_chunks_snoc.
    destruct (Z.ltb_spec (Go.len l) 0) as [?|_]; [pose proof (len_nonneg l); lia|].
    unfold bind at 1. rewrite chunk_at_last.
    destruct (_ >? _); reflexivity. }
  rewrite E. destruct (_ >? _).
  - right. apply grow_eq. lia.
  - left. reflexivity.
Qed.

Lemma Reset_eq l csz :
  Reset (mkArena (Some l) csz) = Ok tt (mkArena (Some (reset_offsets l)) csz).
Proof. reflexivity. Qed.

Lemma reset_offsets_length l : length (reset_offsets l) = length l.
Proof. unfold reset_offsets. apply length_map. Qed.

Lemma reset_offsets_ok csz l :
  Forall (chunk_ok csz) l -> Forall (chunk_ok csz) (reset_offsets l).
Proof.
  unfold reset_offsets. intros H. induction H as [|c l Hc _ IH]; cbn [map].
  - constructor.
  - constructor; [|exact IH]. unfold chunk_ok in *. cbn [buf offset].
    pose proof (len_nonneg (buf c)). lia.
Qed.

Lemma Reset_live a :
  live a -> exists a', Reset a = Ok tt a' /\ live a'.
Proof.
  intros (l & Hl & Hne & Hcs & Hall). destruct a as [chs csz].
  cbn [chunks chunkSize] in *. subst chs.
  eexists. split; [apply Reset_eq|].
  apply live_intro; [|assumption|apply reset_offsets_ok; assumption].
  destruct l; [congruence|discriminate].
Qed.

(** After [Release] the guard of every mutator fires. *)
Lemma released_panics a :
  released a ->
  (forall n, 0 < n -> AllocBytes n a = Panic UseAfterRelease) /\
  (forall n, EnsureCapacity n a = Panic UseAfterRelease) /\
  Reset a = Panic UseAfterRelease.
Proof.
  unfold released. intros Hr. repeat split.
  - intros n Hn. unfold AllocBytes.
    destruct (Z.leb_spec n 0) as [?|_]; [lia|].
    unfold bind at 1. unfold panicIfReleased. rewrite Hr. reflexivity.
  - intros n. unfold EnsureCapacity, bind at 1, panicIfReleased.
    rewrite Hr. reflexivity.
  - unfold Reset, bind at 1, panicIfReleased. rewrite Hr. reflexivity.
Qed.

Lemma AllocBytes_nonpos a n : n <= 0 -> AllocBytes n a = Ok None a.
Proof.
  intros Hn. unfold AllocBytes.
  destruct (Z.leb_spec n 0) as [_|?]; [reflexivity|lia].
Qed.

(** Writing through a slice changes buffer contents only. *)
Lemma write_bytes_live ci start bs a :
  live a -> exists a', write_bytes ci start bs a = Ok tt a' /\ live a'.
Proof.
  intros Hlive. pose proof Hlive as (l & Hl & Hne & Hcs & Hall).
  destruct a as [chs csz].
  cbn [chunks chunkSize] in *. subst chs.
  unfold write_bytes. cbn [chunks chunkSize].
  destruct ((ci <? 0) || (start <? 0)); [eauto|].
  eexists. split; [reflexivity|].
  apply live_intro; [|assumption|].
  - intros E. apply (f_equal length) in E. rewrite length_alter in E.
    destruct l; [congruence|discriminate].
  - apply Forall_alter; [assumption|].
    intros c _ Hc. unfold chunk_ok, Go.len in *. cbn [buf offset].
    rewrite length_inserts. exact Hc.
Qed.

Lemma write_bytes_released ci start bs a :
  released a -> write_bytes ci start bs a = Ok tt a.
Proof. unfold released, write_bytes. intros ->. reflexivity. Qed.

End OtherCalls.

(** ** Memory and the typed layer *)

Section TypedLayer.

Implicit Types (l : list chunk) (c : chunk) (n csz : Z) (a : Arena).

(** Reading back what [list_inserts] wrote. *)
Lemma take_drop_inserts {A : Type} (k l : list A) (i : nat) :
  (i + length k <= length l)%nat ->
  take (length k) (drop i (list_inserts i k l)) = k.
Proof.
  intros H. apply list_eq. intros j.
  destruct (decide (j < length k)%nat) as [Hj|Hj].
  - rewrite lookup_take_lt by lia. rewrite lookup_drop.
    rewrite list_lookup_inserts by lia. f_equal. lia.
  - rewrite lookup_take_ge by lia. symmetry. apply lookup_ge_None. lia.
Qed.

Lemma bytes_at_last l c csz start n :
  0 <= start -> 0 <= n -> start + n <= Go.len (buf c) ->
  bytes_at (mkArena (Some (l ++ [c])) csz) (Go.len l) start n
  = Some (take (Z.to_nat n) (drop (Z.to_nat start) (buf c))).
Proof.
  intros Hs Hn Hb. unfold bytes_at. cbn [chunks].
  destruct (Z.ltb_spec (Go.len l) 0) as [?|_]; [pose proof (len_nonneg l); lia|].
  destruct (Z.ltb_spec start 0) as [?|_]; [lia|].
  destruct (Z.ltb_spec n 0) as [?|_]; [lia|].
  cbn [orb]. unfold Go.len at 1. rewrite Nat2Z.id.
  rewrite list_lookup_middle by reflexivity.
  destruct (Z.leb_spec (start + n) (Go.len (buf c))) as [_|?]; [reflexivity|lia].
Qed.

Lemma write_bytes_last l c csz start bs :
  0 <= start ->
  write_bytes (Go.len l) start bs (mkArena (Some (l ++ [c])) csz)
  = Ok tt (mkArena (Some (l ++ [mkChunk (list_inserts (Z.to_nat start) bs (buf c))
                                        (offset c)])) csz).
Proof.
  intros Hs. unfold write_bytes. cbn [chunks chunkSize].
  destruct (Z.ltb_spec (Go.len l) 0) as [?|_]; [pose proof (len_nonneg l); lia|].
  destruct (Z.ltb_spec start 0) as [?|_]; [lia|]. cbn [orb].
  unfold Go.len. rewrite Nat2Z.id.
  rewrite alter_app_r_alt by lia. rewrite Nat.sub_diag. reflexivity.
Qed.

(** A positive request on a live arena: the slice lies in the current
    chunk of the resulting arena, below its offset. *)
Lemma AllocBytes_pos a n :
  live a -> 0 < n <= Go.maxInt ->
  exists l' c' st,
    AllocBytes n a
    = Ok (Some (mkRegion (Go.len l') st n)) (mkArena (Some (l' ++ [c'])) (chunkSize a)) /\
    live (mkArena (Some (l' ++ [c'])) (chunkSize a)) /\
    0 <= st /\ st mod Go.ptrSize = 0 /\
    st + n = offset c' /\ offset c' <= Go.len (buf c').
Proof.
  intros Hlive Hn.
  destruct (AllocBytes_cases a n Hlive Hn) as (l & c & Ha & [(_ & Hfit & E)|(_ & Hgt & E)]).
  - assert (Hc : 0 <= offset c <= Go.maxInt).
    { destruct (live_snoc a Hlive) as (l1 & c1 & Ha1 & _ & _ & [Ho Hb]).
      rewrite Ha in Ha1. injection Ha1 as Hl1.
      apply app_inj_tail in Hl1 as [_ <-]. lia. }
    pose proof (alignPtr_round_up _ Hc) as R.
    exists l, (mkChunk (buf c) (alignPtr (offset c) + n)), (alignPtr (offset c)).
    cbn [offset buf]. split; [exact E|].
    split; [|repeat split; (lia || apply alignPtr_aligned)].
    apply live_bump; [rewrite <- Ha; exact Hlive|lia].
  - destruct (live_snoc a Hlive) as (_ & _ & _ & Hcs & _).
    exists (l ++ [c]), (mkChunk (replicate (Z.to_nat (Z.max (chunkSize a) n)) x00) n), 0.
    cbn [offset buf]. rewrite len_snoc, len_replicate by lia.
    split; [exact E|].
    split; [|repeat split; (lia || reflexivity)].
    apply live_append; [rewrite <- Ha; exact Hlive|lia|lia].
Qed.

(** [Alloc] for a type of positive size: the pointee reads as zeros. *)
Lemma Alloc_pos a sz :
  live a -> 0 < sz <= Go.maxInt ->
  exists p a',
    Alloc sz a = Ok p a' /\ live a' /\
    p_off p mod Go.ptrSize = 0 /\
    pointee_bytes a' p sz = Some (replicate (Z.to_nat sz) x00).
Proof.
  intros Hlive Hsz.
  destruct (AllocBytes_pos a sz Hlive Hsz) as (l & c & st & E & Hl & Hst & Hal & Ho & Hb).
  unfold Alloc. unfold bind at 1. rewrite E. cbn [slice_len r_len].
  destruct (Z.gtb_spec sz 0) as [_|?]; [|lia].
  unfold bind at 1. unfold clear. cbn [r_chunk r_start r_len].
  rewrite write_bytes_last by exact Hst.
  unfold addr_of_first. cbn [slice_len r_len r_chunk r_start].
  destruct (Z.ltb_spec 0 sz) as [_|?]; [|lia].
  unfold ret. eexists _, _. split; [reflexivity|].
  split; [|split].
  - destruct (write_bytes_live (Go.len l) st (replicate (Z.to_nat sz) x00) _ Hl)
      as (a' & Ew & La').
    rewrite write_bytes_last in Ew by exact Hst. injection Ew as <-. exact La'.
  - exact Hal.
  - unfold pointee_bytes. cbn [p_chunk p_off].
    rewrite bytes_at_last; cbn [buf].
    + f_equal.
      rewrite <- (length_replicate (Z.to_nat sz) x00) at 1.
      apply take_drop_inserts. rewrite length_replicate.
      unfold Go.len in Hb. lia.
    + exact Hst.
    + lia.
    + unfold Go.len in *. rewrite length_inserts. lia.
Qed.

(** [AllocUninitialized] for a type of positive size returns a pointer. *)
Lemma AllocUninitialized_pos a sz :
  live a -> 0 < sz <= Go.maxInt ->
  exists p a', AllocUninitialized sz a = Ok p a' /\ live a'.
Proof.
  intros Hlive Hsz.
  destruct (AllocBytes_pos a sz Hlive Hsz) as (l & c & st & E & Hl & _).
  unfold AllocUninitialized. unfold bind at 1. rewrite E.
  unfold addr_of_first. cbn [slice_len r_len r_chunk r_start].
  destruct (Z.ltb_spec 0 sz) as [_|?]; [|lia].
  unfold ret. eauto.
Qed.

(** A type of size zero: [AllocBytes(0)] is nil and [&b[0]] panics. *)
Lemma Alloc_zero a : Alloc 0 a = Panic IndexOutOfRange.
Proof. reflexivity. Qed.

Lemma AllocUninitialized_zero a : AllocUninitialized 0 a = Panic IndexOutOfRange.
Proof. reflexivity. Qed.

End TypedLayer.

(** ** Sessions: sequences of calls *)

Section Sessions.

Implicit Types (c : call) (cs : list call) (a : Arena).

Lemma exec_bind_ret {A : Type} (m : M A) a a' :
  (m ;;; ret tt) a = Ok tt a' -> exists v, m a = Ok v a'.
Proof.
  unfold bind, ret. destruct (m a) as [v a1|p]; [|discriminate].
  intros [= <-]. eauto.
Qed.

(** Every call but [Release] keeps a live arena live. *)
Lemma exec_live c a a' :
  live a -> call_ok c -> is_release c = false ->
  exec c a = Ok tt a' -> live a'.
Proof.
  intros Hlive Hok Hrel He.
  destruct c as [n|n| | |sz|sz|r i v]; cbn [exec call_ok is_release] in *.
  - apply exec_bind_ret in He as [v He].
    destruct (Z.le_gt_cases n 0) as [Hn|Hn].
    + rewrite AllocBytes_nonpos in He by exact Hn. injection He as _ <-. exact Hlive.
    + destruct (AllocBytes_pos a n Hlive) as (l & c & st & E & Hl & _).
      { unfold Go.is_int in Hok. lia. }
      rewrite E in He. injection He as _ <-. exact Hl.
  - destruct (EnsureCapacity_cases a n Hlive) as (l & Hl & [E|E]);
      rewrite E in He; injection He as <-; [exact Hlive|].
    destruct a as [chs csz]. cbn [chunks chunkSize] in *. subst chs.
    destruct Hlive as (l' & Hl' & Hne & Hcs & Hall) eqn:?.
    cbn [chunks chunkSize] in *.
    apply live_append; [exists l'; cbn [chunks chunkSize]; auto|lia|].
    unfold Go.is_int in Hok. lia.
  - destruct (Reset_live a Hlive) as (a1 & E & H1).
    rewrite E in He. injection He as <-. exact H1.
  - discriminate.
  - apply exec_bind_ret in He as [p He].
    destruct (Z.eq_dec sz 0) as [->|Hnz].
    + rewrite Alloc_zero in He. discriminate.
    + destruct (Alloc_pos a sz Hlive) as (p1 & a1 & E & H1 & _); [lia|].
      rewrite E in He. injection He as _ <-. exact H1.
  - apply exec_bind_ret in He as [p He].
    destruct (Z.eq_dec sz 0) as [->|Hnz].
    + rewrite AllocUninitialized_zero in He. discriminate.
    + destruct (AllocUninitialized_pos a sz Hlive) as (p1 & a1 & E & H1); [lia|].
      rewrite E in He. injection He as _ <-. exact H1.
  - unfold StoreByte in He.
    destruct ((0 <=? i) && (i <? r_len r)); [|discriminate].
    destruct (write_bytes_live (r_chunk r) (r_start r + i) [v] a Hlive) as (a1 & E & H1).
    rewrite E in He. injection He as <-. exact H1.
Qed.


(** No call brings a released arena back. *)
Lemma exec_released c a a' :
  released a -> exec c a = Ok tt a' -> released a'.
Proof.
  intros Hr He. pose proof (released_panics a Hr) as (PA & PE & PR).
  destruct c as [n|n| | |sz|sz|r i v]; cbn [exec] in *.
  - apply exec_bind_ret in He as [v He].
    destruct (Z.le_gt_cases n 0) as [Hn|Hn].
    + rewrite AllocBytes_nonpos in He by exact Hn. injection He as _ <-. exact Hr.
    + rewrite PA in He by lia. discriminate.
  - rewrite PE in He. discriminate.
  - rewrite PR in He. discriminate.
  - unfold Release in He. injection He as <-. reflexivity.
  - apply exec_bind_ret in He as [p He]. unfold Alloc, bind at 1 in He.
    destruct (Z.le_gt_cases sz 0) as [Hn|Hn].
    + rewrite AllocBytes_nonpos in He by exact Hn. discriminate.
    + rewrite PA in He by lia. discriminate.
  - apply exec_bind_ret in He as [p He]. unfold AllocUninitialized, bind at 1 in He.
    destruct (Z.le_gt_cases sz 0) as [Hn|Hn].
    + rewrite AllocBytes_nonpos in He by exact Hn. discriminate.
    + rewrite PA in He by lia. discriminate.
  - unfold StoreByte in He.
    destruct ((0 <=? i) && (i <? r_len r)); [|discriminate].
    rewrite write_bytes_released in He by exact Hr. injection He as <-. exact Hr.
Qed.

Lemma run_cons c cs a a' :
  run (c :: cs) a = Ok tt a' ->
  exists a1, exec c a = Ok tt a1 /\ run cs a1 = Ok tt a'.
Proof.
  cbn [run]. unfold bind. destruct (exec c a) as [[] a1|p]; [|discriminate].
  eauto.
Qed.

Lemma run_live cs : forall a a',
  live a -> Forall call_ok cs -> existsb is_release cs = false ->
  run cs a = Ok tt a' -> live a'.
Proof.
  induction cs as [|c cs IH]; intros a a' Hlive Hok Hrel Hrun.
  - injection Hrun as <-. exact Hlive.
  - apply run_cons in Hrun as (a1 & He & Hrun).
    apply Forall_cons in Hok as [Hc Hcs].
    cbn [existsb] in Hrel. apply orb_false_iff in Hrel as [Hr1 Hr2].
    apply (IH a1 a'); [|assumption..].
    exact (exec_live c a a1 Hlive Hc Hr1 He).
Qed.


Lemma run_released cs : forall a a',
  released a -> run cs a = Ok tt a' -> released a'.
Proof.
  induction cs as [|c cs IH]; intros a a' Hr Hrun.
  - injection Hrun as <-. exact Hr.
  - apply run_cons in Hrun as (a1 & He & Hrun).
    apply (IH a1 a'); [|assumption].
    exact (exec_released c a a1 Hr He).
Qed.

(** Once [Release] occurs in a session the arena stays released. *)
Lemma run_with_release cs : forall a a',
  existsb is_release cs = true -> run cs a = Ok tt a' -> released a'.
Proof.
  induction cs as [|c cs IH]; intros a a' Hrel Hrun; [discriminate|].
  apply run_cons in Hrun as (a1 & He & Hrun).
  cbn [existsb] in Hrel. destruct (is_release c) eqn:Hc.
  - destruct c; try discriminate. cbn [exec] in He. unfold Release in He.
    injection He as <-. eapply run_released; [|exact Hrun]. reflexivity.
  - eapply IH; eauto.
Qed.

End Sessions.

(** ** Metrics *)

Section Metrics.

Implicit Types (l : list chunk) (c : chunk) (a : Arena).

Lemma sum_offsets_reset l :
  fold_left (fun sum c => Go.iadd sum (Go.to_int (offset c))) (reset_offsets l) 0 = 0.
Proof.
  induction l as [|c l IH]; [reflexivity|].
  cbn [reset_offsets map fold_left offset].
  change (Go.iadd 0 (Go.to_int 0)) with 0. exact IH.
Qed.

Lemma sum_lens_reset l : forall acc,
  fold_left (fun sum c => Go.iadd sum (Go.len (buf c))) (reset_offsets l) acc
  = fold_left (fun sum c => Go.iadd sum (Go.len (buf c))) l acc.
Proof.
  induction l as [|c l IH]; intros acc; [reflexivity|].
  cbn [reset_offsets map fold_left buf]. apply IH.
Qed.

Lemma sum_lens_snoc l c :
  fold_left (fun sum c => Go.iadd sum (Go.len (buf c))) (l ++ [c]) 0
  = Go.iadd (fold_left (fun sum c => Go.iadd sum (Go.len (buf c))) l 0) (Go.len (buf c)).
Proof. rewrite fold_left_app. reflexivity. Qed.

Lemma sum_lens_bufs l : forall l' acc,
  map buf l = map buf l' ->
  fold_left (fun sum c => Go.iadd sum (Go.len (buf c))) l acc
  = fold_left (fun sum c => Go.iadd sum (Go.len (buf c))) l' acc.
Proof.
  induction l as [|c l IH]; intros [|c' l'] acc E; try discriminate; [reflexivity|].
  cbn [map] in E. injection E as Ec El. cbn [fold_left]. rewrite Ec. apply IH, El.
Qed.

(** [Capacity] reads the buffers only. *)
Lemma Capacity_buffers a a' : buffers a = buffers a' -> chunks a <> None ->
  chunks a' <> None -> Capacity a = Capacity a'.
Proof.
  unfold buffers, Capacity. destruct (chunks a), (chunks a'); try congruence.
  intros E _ _. apply sum_lens_bufs, E.
Qed.

Lemma NumChunks_reset l csz :
  NumChunks (mkArena (Some (reset_offsets l)) csz) = NumChunks (mkArena (Some l) csz).
Proof. unfold NumChunks, Go.len. cbn [chunks]. rewrite reset_offsets_length. reflexivity. Qed.

(** With a single chunk the capacity is that of the current chunk. *)
Lemma Capacity_single a :
  live a -> NumChunks a = 1 -> Capacity a = current_capacity a.
Proof.
  intros (l & Hl & Hne & Hcs & Hall) Hn.
  unfold NumChunks, Capacity, current_capacity in *. rewrite Hl in *.
  destruct l as [|c [|c' l]]; [congruence| |].
  - cbn [fold_left last]. rewrite Forall_singleton in Hall.
    destruct Hall as [_ Hb]. unfold Go.iadd. rewrite Z.add_0_l.
    apply to_int_small. unfold Go.is_int, Go.minInt.
    pose proof (len_nonneg (buf c)). lia.
  - unfold Go.len in Hn. cbn [length] in Hn. lia.
Qed.

End Metrics.

(** ** Reachable arenas *)

Section Reachable.

Lemma reachable_cases a : reachable a -> live a \/ released a.
Proof.
  intros (csz & cs & Hi & Hok & Hs). unfold session in Hs.
  destruct (NewArena_live csz Hi) as (a0 & E & H0). rewrite E in Hs.
  destruct (existsb is_release cs) eqn:Hrel.
  - right. exact (run_with_release cs a0 a Hrel Hs).
  - left. exact (run_live cs a0 a H0 Hok Hrel Hs).
Qed.

Lemma reachable_live a : reachable a -> chunks a <> None -> live a.
Proof.
  intros Hr Hn. destruct (reachable_cases a Hr) as [H|H]; [exact H|].
  unfold released in H. contradiction.
Qed.


End Reachable.

(** ** The revision with a cached current chunk *)

Section Cached.

(** The constructor: the same default and one chunk, which is current. *)
Lemma cached_NewArena (size : Z) :
  exists a,
    CachedRevision.NewArena size = CachedRevision.Ok tt a /\
    CachedRevision.NumChunks a = 1 /\
    CachedRevision.currentChunk a = Some 0 /\
    (size <= 0 -> CachedRevision.chunkSize a = 65536) /\
    (0 < size -> CachedRevision.chunkSize a = size).
Proof.
  unfold CachedRevision.NewArena, CachedRevision.grow.
  cbn [CachedRevision.chunks CachedRevision.chunkSize append_chunk].
  set (sz := if size <=? 0 then DefaultChunkSize else size).
  assert (Hpos : 0 < sz).
  { subst sz. destruct (Z.leb_spec size 0); [reflexivity|lia]. }
  destruct (Z.gtb_spec sz sz) as [?|_]; [lia|].
  rewrite make_bytes_Some by lia.
  unfold CachedRevision.len_chunks. cbn [CachedRevision.chunks].
  change (Go.len [mkChunk (replicate (Z.to_nat sz) x00) 0]) with 1.
  change (1 >? 0) with true. cbv iota.
  eexists. split; [reflexivity|].
  unfold CachedRevision.NumChunks, CachedRevision.len_chunks.
  cbn [CachedRevision.chunks CachedRevision.chunkSize CachedRevision.currentChunk].
  split; [reflexivity|]. split; [reflexivity|].
  subst sz. destruct (Z.leb_spec size 0); split; intros; (reflexivity || lia).
Qed.

(** [AllocBytes(0)] after [Release()] returns nil here too. *)
Example cached_AllocBytes_zero_after_Release :
  CachedRevision.and_then (CachedRevision.and_then (CachedRevision.NewArena 16) CachedRevision.Release)
           (CachedRevision.AllocBytes 0)
  = CachedRevision.Ok None (CachedRevision.mkArena None 16 None) /\
  CachedRevision.and_then (CachedRevision.and_then (CachedRevision.NewArena 16) CachedRevision.Release)
           (CachedRevision.AllocBytes 8)
  = CachedRevision.Panic UseAfterRelease.
Proof. split; reflexivity. Qed.

(** [NewArena(16)], [EnsureCapacity(100)], [AllocBytes(50)]: served from
    the 100-byte chunk, no third chunk. *)
Example cached_above_chunkSize_may_fit :
  fmap CachedRevision.NumChunks
       (CachedRevision.after (CachedRevision.and_then (CachedRevision.and_then (CachedRevision.NewArena 16)
                                  (CachedRevision.EnsureCapacity 100))
                        (CachedRevision.AllocBytes 50)))
  = Some 2.
Proof. vm_compute. reflexivity. Qed.

(** [NewArena(16)], [AllocBytes(100)], [Reset()]: the first chunk is
    current again, and both [AllocBytes(110)] and [AllocBytes(50)] append a
    third chunk. *)
Example cached_after_Reset_grows :
  let a := CachedRevision.and_then (CachedRevision.and_then (CachedRevision.NewArena 16)
                              (CachedRevision.AllocBytes 100))
                    CachedRevision.Reset in
  fmap CachedRevision.NumChunks (CachedRevision.after a) = Some 2 /\
  fmap CachedRevision.NumChunks (CachedRevision.after (CachedRevision.and_then a (CachedRevision.AllocBytes 110))) = Some 3 /\
  fmap CachedRevision.NumChunks (CachedRevision.after (CachedRevision.and_then a (CachedRevision.AllocBytes 50))) = Some 3.
Proof. vm_compute. repeat split. Qed.

(** After [Reset()] a request up to the length of the first chunk's
    buffer is served from it. *)
Lemma cached_AllocBytes_after_Reset (c0 : chunk) (l : list chunk) (csz n : Z)
      (cur : option Z) :
  Go.len (buf c0) <= Go.maxInt -> 0 < n <= Go.len (buf c0) ->
  exists a1,
    CachedRevision.Reset (CachedRevision.mkArena (Some (c0 :: l)) csz cur)
    = CachedRevision.Ok tt a1 /\
    CachedRevision.AllocBytes n a1
    = CachedRevision.Ok (Some (mkRegion 0 0 n))
        (CachedRevision.mkArena (Some (mkChunk (buf c0) n :: reset_offsets l)) csz (Some 0)).
Proof.
  intros Hb Hn. eexists. split.
  - unfold CachedRevision.Reset. cbn [CachedRevision.chunks CachedRevision.chunkSize].
    cbn [reset_offsets map].
    assert (Hlen : (Go.len (mkChunk (buf c0) 0 :: map (fun c => mkChunk (buf c) 0) l) >? 0) = true).
    { unfold Go.len. cbn [length]. apply Z.gtb_lt. lia. }
    rewrite Hlen. reflexivity.
  - unfold CachedRevision.AllocBytes.
    destruct (Z.leb_spec n 0) as [?|_]; [lia|].
    cbn [CachedRevision.currentChunk CachedRevision.deref CachedRevision.chunks].
    change (Z.to_nat 0) with 0%nat.
    replace ((mkChunk (buf c0) 0 :: map (fun c => mkChunk (buf c) 0) l) !! 0%nat)
      with (Some (mkChunk (buf c0) 0)) by reflexivity.
    change (0 <? 0) with false. cbn [offset buf].
    rewrite alignPtr_0. unfold Go.uadd. rewrite Z.add_0_l.
    unfold Go.maxInt in *.
    rewrite !(to_uintptr_small n) by (unfold Go.modulus, Go.wordBits; lia).
    rewrite to_uintptr_small by (unfold Go.modulus, Go.wordBits; lia).
    destruct (Z.leb_spec n (Go.len (buf c0))) as [_|?]; [|lia].
    unfold CachedRevision.slice_at, CachedRevision.set_offset.
    cbn [CachedRevision.chunks CachedRevision.chunkSize CachedRevision.currentChunk buf].
    change (Go.to_int 0) with 0. change (Z.to_nat 0) with 0%nat.
    destruct (Z.ltb_spec 0 (Go.len (buf c0))) as [_|?]; [|lia].
    reflexivity.
Qed.

End Cached.

(** ** Properties of the specification *)

(** Discharges [reachable a] for a concrete session by running it. *)
Ltac int_range := unfold Go.is_int, Go.minInt, Go.maxInt; lia.
Ltac calls_ok :=
  repeat first [ apply List.Forall_nil
               | apply List.Forall_cons; [cbn [call_ok]; first [exact I | int_range | lia]|] ].
Ltac by_session csz cs :=
  exists csz, cs; split; [int_range | split; [calls_ok | vm_compute; reflexivity]].

Lemma arena_16_used_3_reachable : reachable arena_16_used_3.
Proof. by_session 16 [CallAllocBytes 3]. Qed.

Lemma arena_16_and_100_reachable : reachable arena_16_and_100.
Proof. by_session 16 [CallAllocBytes 100]. Qed.

Lemma arena_16_stale_reachable : reachable arena_16_stale.
Proof. by_session 16 [CallAllocBytes 8; CallStore (mkRegion 0 0 8) 0 xff; CallReset]. Qed.



(** C2, as stated: after [Release()], [AllocBytes] fails with
    UseAfterRelease for any n.  It does not: the test [n <= 0] comes before
    [panicIfReleased], so [AllocBytes(0)] on a released arena returns nil. *)
Lemma AllocBytes_after_Release_nonpositive :
  ~ (forall (a a' : Arena) (n : Z),
        reachable a -> Release a = Ok tt a' -> Go.is_int n ->
        AllocBytes n a' = Panic UseAfterRelease).
Proof.
  intros H.
  specialize (H arena_16_used_3 (mkArena None 16) 0).
  assert (E : AllocBytes 0 (mkArena None 16) = Ok None (mkArena None 16)) by reflexivity.
  rewrite H in E.
  - discriminate.
  - by_session 16 [CallAllocBytes 3].
  - reflexivity.
  - int_range.
Qed.

(** C2, amended. After [Release()], every [AllocBytes(n)] with n > 0, every
    [EnsureCapacity] and [Reset] panic with UseAfterRelease; [AllocBytes(m)]
    with m <= 0 returns nil and leaves the arena as it is; a second
    [Release()] does not fail and changes nothing. *)
Theorem after_Release_use_panics (a a' : Arena) (n m k : Z) :
  Release a = Ok tt a' -> 0 < n -> m <= 0 ->
  AllocBytes n a' = Panic UseAfterRelease /\
  AllocBytes m a' = Ok None a' /\
  EnsureCapacity k a' = Panic UseAfterRelease /\
  Reset a' = Panic UseAfterRelease /\
  Release a' = Ok tt a'.
Proof.
  intros HR Hn Hm. unfold Release in HR. injection HR as <-.
  assert (Hrel : released (mkArena None (chunkSize a))) by reflexivity.
  destruct (released_panics _ Hrel) as (PA & PE & PR).
  split; [apply PA; exact Hn|].
  split; [apply AllocBytes_nonpos; exact Hm|].
  split; [apply PE|].
  split; [exact PR|reflexivity].
Qed.

Lemma after_Release_use_panics_witness :
  AllocBytes 100 (mkArena None 16) = Panic UseAfterRelease /\
  AllocBytes 0 (mkArena None 16) = Ok None (mkArena None 16) /\
  EnsureCapacity 100 (mkArena None 16) = Panic UseAfterRelease /\
  Reset (mkArena None 16) = Panic UseAfterRelease /\
  Release (mkArena None 16) = Ok tt (mkArena None 16).
Proof.
  apply (after_Release_use_panics arena_16_used_3 (mkArena None 16) 100 0 100).
  - reflexivity.
  - lia.
  - lia.
Defined.




(** C4, as stated: after [Reset()], [AllocBytes(n)] with n up to the prior
    [Capacity()] does not grow.  It can: allocations go to the last chunk
    only, and the capacity sums all chunks.  With chunks of 16 and 100
    bytes the capacity is 116, and [AllocBytes(110)] appends a third
    chunk. *)
Lemma AllocBytes_after_Reset_may_grow :
  ~ (forall (a a1 a2 : Arena) (n : Z) (r : option region),
        reachable a -> Reset a = Ok tt a1 -> 0 < n <= Capacity a ->
        AllocBytes n a1 = Ok r a2 ->
        NumChunks a2 = NumChunks a1).
Proof.
  intros H.
  pose (a1 := mkArena (Some [mkChunk (replicate 16 x00) 0; mkChunk (replicate 100 x00) 0]) 16).
  pose (a2 := mkArena (Some [mkChunk (replicate 16 x00) 0; mkChunk (replicate 100 x00) 0;
                             mkChunk (replicate 110 x00) 110]) 16).
  specialize (H arena_16_and_100 a1 a2 110 (Some (mkRegion 2 0 110))).
  assert (E : NumChunks a2 = 3) by reflexivity.
  rewrite H in E.
  - vm_compute in E. discriminate.
  - by_session 16 [CallAllocBytes 100].
  - vm_compute. reflexivity.
  - split; [lia|]. vm_compute. discriminate.
  - vm_compute. reflexivity.
Qed.

(** C4, amended. After [Reset()] on a non-released arena, [AllocBytes(n)]
    with 0 < n <= the length of the current (last) chunk's buffer succeeds
    without growing: the slice starts at offset 0 and [NumChunks] and
    [Capacity] stay as they were before the [Reset].  That length is at
    least [ChunkSize()], and it is the whole [Capacity()] when the arena
    holds a single chunk. *)
Theorem AllocBytes_after_Reset (a a1 : Arena) (n : Z) :
  reachable a -> Reset a = Ok tt a1 -> 0 < n <= current_capacity a ->
  exists r a2,
    AllocBytes n a1 = Ok (Some r) a2 /\
    r_len r = n /\ r_start r = 0 /\
    NumChunks a2 = NumChunks a1 /\ NumChunks a1 = NumChunks a /\
    Capacity a2 = Capacity a /\
    ChunkSize a <= current_capacity a /\
    (NumChunks a = 1 -> current_capacity a = Capacity a).
Proof.
  intros Hr HR Hn.
  assert (Hnr : chunks a <> None).
  { intros Hrel. destruct (released_panics a Hrel) as (_ & _ & PR). congruence. }
  pose proof (reachable_live a Hr Hnr) as Hlive.
  destruct (live_snoc a Hlive) as (l & c & Ha & Hcs & Hall & [Ho Hb]).
  assert (Hch : chunks a = Some (l ++ [c])) by (rewrite Ha; reflexivity).
  assert (Hcap : current_capacity a = Go.len (buf c)).
  { unfold current_capacity. rewrite Hch, last_snoc. reflexivity. }
  rewrite Ha, Reset_eq in HR. injection HR as <-.
  unfold reset_offsets. rewrite map_app. cbn [map].
  fold (reset_offsets l).
  pose proof (len_nonneg (buf c)) as Hlen.
  rewrite AllocBytes_fit; cbn [buf offset]; rewrite ?alignPtr_0; try lia.
  eexists _, _. split; [reflexivity|]. cbn [r_len r_start].
  split; [reflexivity|]. split; [reflexivity|].
  split; [unfold NumChunks; cbn [chunks]; rewrite !len_snoc; reflexivity|].
  split.
  { unfold NumChunks. rewrite Hch. cbn [chunks]. unfold Go.len.
    rewrite !length_app, reset_offsets_length. reflexivity. }
  split.
  { apply Capacity_buffers; [|discriminate|exact Hnr].
    unfold buffers. rewrite Hch. cbn [chunks]. rewrite !map_app. cbn [map buf].
    f_equal. unfold reset_offsets. rewrite map_map. reflexivity. }
  split; [unfold ChunkSize; lia|].
  intros H1. symmetry. apply Capacity_single; assumption.
Qed.

Lemma AllocBytes_after_Reset_witness :
  exists r a2,
    AllocBytes 100 (mkArena (Some [mkChunk (replicate 16 x00) 0;
                                   mkChunk (replicate 100 x00) 0]) 16)
    = Ok (Some r) a2 /\
    r_len r = 100 /\ r_start r = 0 /\
    NumChunks a2
    = NumChunks (mkArena (Some [mkChunk (replicate 16 x00) 0;
                                mkChunk (replicate 100 x00) 0]) 16) /\
    NumChunks (mkArena (Some [mkChunk (replicate 16 x00) 0;
                              mkChunk (replicate 100 x00) 0]) 16)
    = NumChunks arena_16_and_100 /\
    Capacity a2 = Capacity arena_16_and_100 /\
    ChunkSize arena_16_and_100 <= current_capacity arena_16_and_100 /\
    (NumChunks arena_16_and_100 = 1 ->
     current_capacity arena_16_and_100 = Capacity arena_16_and_100).
Proof.
  apply (AllocBytes_after_Reset arena_16_and_100 _ 100).
  - by_session 16 [CallAllocBytes 100].
  - vm_compute. reflexivity.
  - split; [lia|]. vm_compute. discriminate.
Defined.



(** The skeleton in [src/arena.go] also starts with one chunk; its default
    was 1 MiB. *)
Lemma InitialRevision_NewArena_default :
  exists a,
    InitialRevision.NewArena 0 = Some a /\
    InitialRevision.chunkSize a = 1048576 /\
    fmap length (InitialRevision.chunks a) = Some 1%nat.
Proof. eexists. split; [reflexivity|]. split; reflexivity. Qed.

(** C6. After [Release()] the metrics read [SizeInUse() == 0],
    [NumChunks() == 0], [Capacity() == 0] and [Utilization() == 0]. *)
Theorem metrics_after_Release (a a' : Arena) :
  Release a = Ok tt a' ->
  SizeInUse a' = 0 /\ NumChunks a' = 0 /\ Capacity a' = 0 /\
  Utilization a' = 0%float.
Proof.
  unfold Release. intros [= <-]. repeat split.
Qed.

Lemma metrics_after_Release_witness :
  SizeInUse (mkArena None 16) = 0 /\ NumChunks (mkArena None 16) = 0 /\
  Capacity (mkArena None 16) = 0 /\ Utilization (mkArena None 16) = 0%float.
Proof.
  apply (metrics_after_Release arena_16_and_100 (mkArena None 16)).
  reflexivity.
Defined.

(** C7. Right after [Reset()] on a non-released arena [SizeInUse() == 0],
    while [NumChunks()] and [Capacity()] are what they were before: the
    chunk buffers are kept as they are. *)
Theorem Reset_keeps_chunks (a : Arena) :
  chunks a <> None ->
  exists a',
    Reset a = Ok tt a' /\
    SizeInUse a' = 0 /\
    NumChunks a' = NumChunks a /\
    Capacity a' = Capacity a /\
    buffers a' = buffers a.
Proof.
  intros Hnr. destruct a as [[l|] csz]; [|contradiction].
  eexists. split; [apply Reset_eq|].
  split; [unfold SizeInUse; cbn [chunks]; apply sum_offsets_reset|].
  split; [apply NumChunks_reset|].
  split; [unfold Capacity; cbn [chunks]; apply sum_lens_reset|].
  unfold buffers, reset_offsets. cbn [chunks]. rewrite map_map. reflexivity.
Qed.

Lemma Reset_keeps_chunks_witness :
  exists a',
    Reset arena_16_and_100 = Ok tt a' /\
    SizeInUse a' = 0 /\
    NumChunks a' = NumChunks arena_16_and_100 /\
    Capacity a' = Capacity arena_16_and_100 /\
    buffers a' = buffers arena_16_and_100.
Proof.
  apply (Reset_keeps_chunks arena_16_and_100). discriminate.
Defined.



(** The released half of C8 on a session that releases. *)
Example release_is_terminal :
  final (session 16 [CallAllocBytes 3; CallRelease; CallAllocBytes 0; CallRelease])
  = Some (mkArena None 16) /\
  final (session 16 [CallAllocBytes 3; CallRelease; CallAllocBytes 8]) = None.
Proof. split; reflexivity. Qed.




(** C10. For a type of size zero, [Alloc], [AllocZeroed] and
    [AllocUninitialized] panic: [AllocBytes(0)] returns nil, whatever the
    arena, and taking the address of its first element is out of range. *)
Theorem zero_sized_alloc_panics (a : Arena) :
  AllocBytes 0 a = Ok None a /\
  Alloc 0 a = Panic IndexOutOfRange /\
  AllocZeroed 0 a = Panic IndexOutOfRange /\
  AllocUninitialized 0 a = Panic IndexOutOfRange.
Proof. repeat split. Qed.

(** ** Further properties of the code *)

(** X1. [alignPtr] rounds an offset up to the least multiple of the pointer
    size that is not below it, and leaves a multiple as it is. *)
Theorem alignPtr_least_multiple (off m : Z) :
  0 <= off <= Go.modulus - Go.ptrSize ->
  alignPtr off mod Go.ptrSize = 0 /\
  off <= alignPtr off < off + Go.ptrSize /\
  (off <= m -> m mod Go.ptrSize = 0 -> alignPtr off <= m) /\
  (off mod Go.ptrSize = 0 -> alignPtr off = off) /\
  alignPtr (alignPtr off) = alignPtr off.
Proof.
  unfold Go.ptrSize, Go.modulus, Go.wordBits. intros H.
  assert (E : alignPtr off = (off + 7) / 8 * 8).
  { rewrite alignPtr_eq, to_uintptr_small; [reflexivity|].
    unfold Go.modulus, Go.wordBits. lia. }
  pose proof (Z.div_mod (off + 7) 8 ltac:(lia)) as D.
  pose proof (Z.mod_pos_bound (off + 7) 8 ltac:(lia)) as B.
  assert (Hmul : forall x, 0 <= x <= 2 ^ 64 - 8 -> x mod 8 = 0 ->
                           alignPtr x = x).
  { intros x Hx Hx0.
    rewrite alignPtr_eq, to_uintptr_small by (unfold Go.modulus, Go.wordBits; lia).
    pose proof (Z.div_mod x 8 ltac:(lia)) as Dx.
    replace (x + 7) with (7 + (x / 8) * 8) by lia.
    rewrite Z.div_add by lia. change (7 / 8) with 0. lia. }
  split; [apply alignPtr_aligned|].
  split; [lia|].
  split.
  { intros Hm Hm0. rewrite E.
    pose proof (Z.div_mod m 8 ltac:(lia)) as Dm. rewrite Hm0 in Dm.
    assert ((off + 7) / 8 <= m / 8); [|lia].
    apply Z.div_le_lower_bound; lia. }
  split; [intros H0; apply Hmul; [lia|exact H0]|].
  apply Hmul; [|apply alignPtr_aligned].
  pose proof (alignPtr_aligned off) as A. unfold Go.ptrSize in A.
  rewrite E in *.
  assert ((off + 7) / 8 <= (2 ^ 64 - 1) / 8) by (apply Z.div_le_mono; lia).
  change ((2 ^ 64 - 1) / 8) with 2305843009213693951 in *. lia.
Qed.

Lemma alignPtr_least_multiple_witness :
  alignPtr 13 mod Go.ptrSize = 0 /\
  13 <= alignPtr 13 < 13 + Go.ptrSize /\
  (13 <= 24 -> 24 mod Go.ptrSize = 0 -> alignPtr 13 <= 24) /\
  (13 mod Go.ptrSize = 0 -> alignPtr 13 = 13) /\
  alignPtr (alignPtr 13) = alignPtr 13.
Proof.
  apply (alignPtr_least_multiple 13 24).
  unfold Go.modulus, Go.wordBits, Go.ptrSize. lia.
Defined.

(** X2. Within seven of the top of the [uintptr] range the addition in
    [alignPtr] wraps around and the result is 0, below the offset. *)
Theorem alignPtr_wraps_to_zero (off : Z) :
  Go.modulus - Go.ptrSize < off < Go.modulus -> alignPtr off = 0.
Proof.
  unfold Go.ptrSize. intros H. rewrite alignPtr_eq. unfold Go.to_uintptr.
  assert (E : (off + 7) mod Go.modulus = off + 7 - Go.modulus).
  { symmetry. apply Z.mod_unique with (q := 1); unfold Go.modulus, Go.wordBits in *; lia. }
  rewrite E. unfold Go.modulus, Go.wordBits in *.
  rewrite Z.div_small by lia. reflexivity.
Qed.

Lemma alignPtr_wraps_to_zero_witness : alignPtr (Go.modulus - 1) = 0.
Proof.
  apply (alignPtr_wraps_to_zero (Go.modulus - 1)).
  unfold Go.modulus, Go.wordBits, Go.ptrSize. lia.
Defined.






Lemma EnsureCapacity_eq (a : Arena) (n : Z) :
  live a ->
  EnsureCapacity n a = if fits a n then Ok tt a else grow n a.
Proof.
  intros Hlive.
  destruct (live_snoc a Hlive) as (l & c & Ha & _).
  destruct a as [chs csz]. cbn [chunkSize] in *. injection Ha as ->.
  rewrite fits_last. unfold EnsureCapacity.
  unfold bind at 1. unfold panicIfReleased. cbn [chunks].
  unfold bind at 1. unfold get.
  rewrite !len_chunks_snoc.
  destruct (Z.ltb_spec (Go.len l) 0) as [?|_]; [pose proof (len_nonneg l); lia|].
  unfold bind at 1. rewrite chunk_at_last.
  destruct (_ >? _); reflexivity.
Qed.

Lemma buffers_snoc (l : list chunk) (c : chunk) (csz : Z) :
  buffers (mkArena (Some (l ++ [c])) csz) = map buf l ++ [buf c].
Proof. unfold buffers. cbn [chunks]. rewrite map_app. reflexivity. Qed.

(** What a call of the core does to the chunk buffers: nothing, or one
    zero-filled buffer more. *)
Lemma exec_core_buffers (c : call) (a a' : Arena) :
  live a -> call_ok c -> core_call c = true -> exec c a = Ok tt a' ->
  buffers a' = buffers a \/
  exists size, chunkSize a <= size /\
               buffers a' = buffers a ++ [replicate (Z.to_nat size) x00].
Proof.
  intros Hlive Hok Hcore He.
  pose proof (EnsureCapacity_eq a) as HE.
  destruct (live_snoc a Hlive) as (l & c0 & Ha & Hcs & _ & [Ho Hb]).
  destruct a as [chs csz]. cbn [chunkSize] in *. injection Ha as ->.
  destruct c as [n|n| | |sz|sz|r i v]; cbn [exec call_ok core_call] in *;
    try discriminate.
  - apply exec_bind_ret in He as [v He].
    destruct (Z.le_gt_cases n 0) as [Hn|Hn].
    + rewrite AllocBytes_nonpos in He by exact Hn. injection He as _ <-. left. reflexivity.
    + unfold Go.is_int in Hok.
      destruct (Z.le_gt_cases (n + alignPtr (offset c0)) (Go.len (buf c0))) as [Hfit|Hgt].
      * rewrite AllocBytes_fit in He by lia. injection He as _ <-.
        left. rewrite !buffers_snoc. reflexivity.
      * rewrite AllocBytes_grow in He by lia. injection He as _ <-.
        right. exists (Z.max csz n). split; [lia|].
        rewrite (buffers_snoc (l ++ [c0])), buffers_snoc, map_app. reflexivity.
  - rewrite (HE n Hlive) in He. destruct (fits _ n).
    + injection He as <-. left. reflexivity.
    + rewrite grow_eq in He by lia. injection He as <-.
      right. exists (Z.max csz n). split; [lia|].
      rewrite (buffers_snoc (l ++ [c0])), buffers_snoc, map_app. reflexivity.
  - rewrite Reset_eq in He. injection He as <-. left.
    unfold buffers, reset_offsets. cbn [chunks].
    rewrite map_map. reflexivity.
Qed.

(** X4. [AllocBytes], [EnsureCapacity] and [Reset] never resize, move or
    overwrite a chunk buffer: over any run of such calls on a non-released
    arena the buffers it had are kept, byte for byte and in order, and new
    ones are only appended. *)
Theorem core_calls_append_only (a a' : Arena) (cs : list call) :
  reachable a -> chunks a <> None ->
  Forall call_ok cs -> forallb core_call cs = true ->
  run cs a = Ok tt a' ->
  buffers a `prefix_of` buffers a' /\ NumChunks a <= NumChunks a'.
Proof.
  intros Hr Hnr Hok Hcore Hrun. pose proof (reachable_live a Hr Hnr) as Hlive.
  clear Hr Hnr. revert a Hlive Hrun.
  assert (Hnum : forall x : Arena, chunks x <> None ->
                   NumChunks x = Z.of_nat (length (buffers x))).
  { intros x Hx. unfold NumChunks, buffers, Go.len.
    destruct (chunks x); [rewrite length_map; reflexivity|contradiction]. }
  induction cs as [|c cs IH]; intros a Hlive Hrun.
  - injection Hrun as <-. split; [reflexivity|lia].
  - apply run_cons in Hrun as (a1 & He & Hrun).
    apply Forall_cons in Hok as [Hc Hcs].
    cbn [forallb] in Hcore. apply andb_true_iff in Hcore as [Hc1 Hc2].
    assert (H1 : live a1).
    { eapply exec_live; eauto. destruct c; try discriminate; reflexivity. }
    destruct (IH Hcs Hc2 a1 H1 Hrun) as [Hp Hn].
    assert (Hstep : buffers a `prefix_of` buffers a1).
    { destruct (exec_core_buffers c a a1 Hlive Hc Hc1 He) as [->|(size & _ & ->)];
        [reflexivity|apply prefix_app_r; reflexivity]. }
    split; [etrans; eassumption|].
    apply prefix_length in Hstep.
    rewrite (Hnum a) by (apply live_not_released; assumption).
    rewrite (Hnum a1) in Hn by (apply live_not_released; assumption). lia.
Qed.

Lemma core_calls_append_only_witness :
  buffers arena_16_used_3
    `prefix_of` buffers (mkArena (Some [mkChunk (replicate 16 x00) 0;
                                        mkChunk (replicate 100 x00) 40]) 16) /\
  NumChunks arena_16_used_3
  <= NumChunks (mkArena (Some [mkChunk (replicate 16 x00) 0;
                               mkChunk (replicate 100 x00) 40]) 16).
Proof.
  apply (core_calls_append_only arena_16_used_3 _
           [CallAllocBytes 100; CallReset; CallEnsureCapacity 50; CallAllocBytes 40]).
  - by_session 16 [CallAllocBytes 3].
  - discriminate.
  - calls_ok.
  - reflexivity.
  - vm_compute. reflexivity.
Defined.



(** The stale byte of [arena_16_stale] shows through [AllocBytes(8)]. *)
Example AllocBytes_shows_stale_byte :
  match AllocBytes 8 arena_16_stale with
  | Ok (Some r) a' => region_bytes a' r
  | _ => None
  end = Some (xff :: replicate 7 x00).
Proof. vm_compute. reflexivity. Qed.








(** X8. [EnsureCapacity] converts n to [uintptr] before it compares, so a
    negative n reads as a huge request: whenever the aligned offset of the
    current chunk is below -n (right after [NewArena] or [Reset], for every
    negative n) a chunk of the configured size is appended. *)
Theorem EnsureCapacity_negative_grows (a : Arena) (n : Z) (l : list chunk) (c : chunk) :
  reachable a -> chunks a = Some l -> last l = Some c ->
  Go.minInt <= n < 0 -> alignPtr (offset c) + n < 0 ->
  EnsureCapacity n a
  = Ok tt (mkArena (Some (l ++ [mkChunk (replicate (Z.to_nat (chunkSize a)) x00) 0]))
                   (chunkSize a)).
Proof.
  intros Hr Hl Hlast Hn Hneg.
  assert (Hnr : chunks a <> None) by congruence.
  pose proof (reachable_live a Hr Hnr) as Hlive.
  rewrite (EnsureCapacity_eq a n Hlive).
  destruct (live_snoc a Hlive) as (l0 & c0 & Ha & Hcs & _ & [Ho Hb]).
  destruct a as [chs csz]. cbn [chunkSize chunks] in *. injection Ha as ->.
  injection Hl as <-. rewrite last_snoc in Hlast. injection Hlast as <-.
  rewrite fits_last.
  pose proof (alignPtr_nonneg (offset c0)) as Hal.
  assert (Hoff : 0 <= offset c0 <= Go.maxInt) by lia.
  pose proof (alignPtr_round_up _ Hoff) as R.
  unfold Go.minInt, Go.maxInt, Go.ptrSize in *.
  assert (E1 : Go.to_uintptr n = n + 2 ^ 64).
  { unfold Go.to_uintptr. symmetry.
    apply Z.mod_unique with (q := -1); unfold Go.modulus, Go.wordBits; lia. }
  unfold Go.uadd. rewrite E1.
  rewrite (to_uintptr_small (n + 2 ^ 64 + _)) by (unfold Go.modulus, Go.wordBits; lia).
  rewrite (to_uintptr_small (Go.len _)) by (unfold Go.modulus, Go.wordBits; lia).
  destruct (Z.gtb_spec (n + 2 ^ 64 + alignPtr (offset c0)) (Go.len (buf c0))) as [_|?]; [|lia].
  cbn [negb]. rewrite grow_eq by lia.
  replace (Z.max csz n) with csz by lia. reflexivity.
Qed.

Lemma EnsureCapacity_negative_grows_witness :
  EnsureCapacity (-1) (mkArena (Some [mkChunk (replicate 16 x00) 0]) 16)
  = Ok tt (mkArena (Some ([mkChunk (replicate 16 x00) 0]
                          ++ [mkChunk (replicate (Z.to_nat 16) x00) 0])) 16).
Proof.
  apply (EnsureCapacity_negative_grows
           (mkArena (Some [mkChunk (replicate 16 x00) 0]) 16) (-1)
           [mkChunk (replicate 16 x00) 0] (mkChunk (replicate 16 x00) 0)).
  - by_session 16 (@nil call).
  - reflexivity.
  - reflexivity.
  - unfold Go.minInt. lia.
  - vm_compute. reflexivity.
Defined.

Section KeepsChunkSize.

Lemma keeps_ret {A : Type} (v : A) : keeps_chunkSize (ret v).
Proof. intros a v' a' [= _ <-]. reflexivity. Qed.

Lemma keeps_throw {A : Type} (p : panic) : keeps_chunkSize (@throw A p).
Proof. intros a v a' H. discriminate. Qed.

Lemma keeps_get : keeps_chunkSize get.
Proof. intros a v a' [= _ <-]. reflexivity. Qed.

Lemma keeps_bind {A B : Type} (m : M A) (k : A -> M B) :
  keeps_chunkSize m -> (forall v, keeps_chunkSize (k v)) -> keeps_chunkSize (bind m k).
Proof.
  intros Hm Hk a v a' H. unfold bind in H.
  destruct (m a) as [v1 a1|p] eqn:E; [|discriminate].
  rewrite (Hk v1 a1 v a' H). exact (Hm a v1 a1 E).
Qed.

Lemma keeps_panicIfReleased : keeps_chunkSize panicIfReleased.
Proof.
  intros a v a' H. unfold panicIfReleased in H.
  destruct (chunks a); [injection H as _ <-; reflexivity|discriminate].
Qed.

Lemma keeps_grow (n : Z) : keeps_chunkSize (grow n).
Proof.
  intros a v a' H. unfold grow in H.
  destruct (make_bytes _); [injection H as _ <-; reflexivity|discriminate].
Qed.

Lemma keeps_chunk_at (ci : Z) : keeps_chunkSize (chunk_at ci).
Proof.
  intros a v a' H. unfold chunk_at in H.
  destruct (chunks a); [|discriminate].
  destruct (ci <? 0); [discriminate|].
  destruct (_ !! _); [injection H as _ <-; reflexivity|discriminate].
Qed.

Lemma keeps_store_chunk (ci : Z) (c : chunk) : keeps_chunkSize (store_chunk ci c).
Proof.
  intros a v a' H. unfold store_chunk in H.
  destruct (chunks a); [|discriminate].
  destruct (_ || _); [discriminate|injection H as _ <-; reflexivity].
Qed.

Lemma keeps_slice_buf (ci : Z) (c : chunk) (s e : Z) : keeps_chunkSize (slice_buf ci c s e).
Proof.
  unfold slice_buf. destruct (_ && _); [apply keeps_ret|apply keeps_throw].
Qed.

Lemma keeps_write_bytes (ci start : Z) (bs : list byte) :
  keeps_chunkSize (write_bytes ci start bs).
Proof.
  intros a v a' H. unfold write_bytes in H.
  destruct (chunks a); [|injection H as _ <-; reflexivity].
  destruct (_ || _); injection H as _ <-; reflexivity.
Qed.

Lemma keeps_clear (b : option region) : keeps_chunkSize (clear b).
Proof. destruct b; [apply keeps_write_bytes|apply keeps_ret]. Qed.

Lemma keeps_addr_of_first (b : option region) : keeps_chunkSize (addr_of_first b).
Proof.
  unfold addr_of_first. destruct (0 <? _); [|apply keeps_throw].
  destruct b; [apply keeps_ret|apply keeps_throw].
Qed.

Ltac keeps :=
  repeat first
    [ apply keeps_ret | apply keeps_throw | apply keeps_get
    | apply keeps_panicIfReleased | apply keeps_grow | apply keeps_chunk_at
    | apply keeps_store_chunk | apply keeps_slice_buf | apply keeps_write_bytes
    | apply keeps_clear | apply keeps_addr_of_first
    | apply keeps_bind; [|intros]
    | match goal with
      | |- keeps_chunkSize (if ?b then _ else _) => destruct b
      | |- keeps_chunkSize (let '(_, _) := ?st in _) => destruct st
      end ].

Lemma keeps_AllocBytes (n : Z) : keeps_chunkSize (AllocBytes n).
Proof. unfold AllocBytes. keeps. Qed.

Lemma keeps_EnsureCapacity (n : Z) : keeps_chunkSize (EnsureCapacity n).
Proof. unfold EnsureCapacity. keeps. Qed.

Lemma keeps_Reset : keeps_chunkSize Reset.
Proof.
  intros [[l|] csz] v a' H; [|discriminate].
  rewrite Reset_eq in H. injection H as _ <-. reflexivity.
Qed.

Lemma keeps_Release : keeps_chunkSize Release.
Proof. intros a v a' [= _ <-]. reflexivity. Qed.

Lemma keeps_exec (c : call) : keeps_chunkSize (exec c).
Proof.
  destruct c; cbn [exec];
    first [ apply keeps_EnsureCapacity | apply keeps_Reset | apply keeps_Release
          | unfold Alloc, AllocUninitialized, StoreByte;
            pose proof keeps_AllocBytes; keeps; auto ].
Qed.

Lemma keeps_run (cs : list call) : keeps_chunkSize (run cs).
Proof.
  induction cs as [|c cs IH]; cbn [run]; [apply keeps_ret|].
  apply keeps_bind; [apply keeps_exec|intros; exact IH].
Qed.

End KeepsChunkSize.

(** X9. The configured chunk size is fixed by [NewArena] and never changes:
    after any sequence of calls that returns, [Release] included,
    [ChunkSize()] is still the size given to the constructor, or the
    default when that was not positive. *)
Theorem ChunkSize_immutable (size : Z) (cs : list call) (a : Arena) :
  session size cs = Ok tt a ->
  ChunkSize a = if size <=? 0 then DefaultChunkSize else size.
Proof.
  unfold session. rewrite NewArena_eq. intros H.
  unfold ChunkSize. rewrite (keeps_run cs _ _ _ H). reflexivity.
Qed.

Lemma ChunkSize_immutable_witness :
  ChunkSize (mkArena None 16) = if 16 <=? 0 then DefaultChunkSize else 16.
Proof.
  apply (ChunkSize_immutable 16
           [CallAllocBytes 100; CallAlloc 8; CallReset; CallEnsureCapacity 40; CallRelease]).
  vm_compute. reflexivity.
Defined.

Section Totals.

Lemma totals_bounds (csz : Z) (l : list chunk) :
  0 < csz -> Forall (chunk_ok csz) l ->
  0 <= total_offsets l <= total_lens l /\ Go.len l * csz <= total_lens l.
Proof.
  intros Hcsz H. induction H as [|c l [Ho Hb] _ [IH1 IH2]].
  - cbn. unfold Go.len. cbn. lia.
  - cbn [total_offsets total_lens fold_right].
    fold (total_offsets l). fold (total_lens l).
    assert (E : Go.len (c :: l) = 1 + Go.len l).
    { unfold Go.len. cbn [length]. lia. }
    rewrite E. split; [lia|].
    replace ((1 + Go.len l) * csz) with (csz + Go.len l * csz) by ring. lia.
Qed.

Lemma sum_offsets_exact (csz : Z) (l : list chunk) : forall acc,
  Forall (chunk_ok csz) l -> 0 <= acc -> acc + total_offsets l <= Go.maxInt ->
  fold_left (fun sum c => Go.iadd sum (Go.to_int (offset c))) l acc
  = acc + total_offsets l.
Proof.
  induction l as [|c l IH]; intros acc Hall Hacc Hsum.
  - cbn. lia.
  - apply Forall_cons in Hall as [[Ho Hb] Hall].
    cbn [fold_left total_offsets fold_right] in *. fold (total_offsets l) in *.
    assert (Hrest : 0 <= total_offsets l).
    { clear -Hall. induction Hall as [|c' l' [Ho' _] _ IH']; cbn; [lia|].
      fold (total_offsets l'). lia. }
    unfold Go.iadd.
    rewrite (to_int_small (offset c)) by (unfold Go.is_int, Go.minInt, Go.maxInt in *; lia).
    rewrite to_int_small by (unfold Go.is_int, Go.minInt, Go.maxInt in *; lia).
    rewrite IH by (assumption || lia). lia.
Qed.

Lemma sum_lens_exact (l : list chunk) : forall acc,
  0 <= acc -> acc + total_lens l <= Go.maxInt ->
  fold_left (fun sum c => Go.iadd sum (Go.len (buf c))) l acc
  = acc + total_lens l.
Proof.
  induction l as [|c l IH]; intros acc Hacc Hsum.
  - cbn. lia.
  - cbn [fold_left total_lens fold_right] in *. fold (total_lens l) in *.
    assert (Hrest : 0 <= total_lens l).
    { clear. induction l as [|c' l' IH']; cbn; [lia|].
      fold (total_lens l'). pose proof (len_nonneg (buf c')). lia. }
    pose proof (len_nonneg (buf c)).
    unfold Go.iadd.
    rewrite to_int_small by (unfold Go.is_int, Go.minInt, Go.maxInt in *; lia).
    rewrite IH by lia. lia.
Qed.

End Totals.

(** X10. As long as the chunk buffers together hold no more bytes than an
    [int] can count, the metrics are exact sums and consistent:
    0 <= SizeInUse() <= Capacity(), and since every chunk has at least the
    configured size, NumChunks() * ChunkSize() <= Capacity(). *)
Theorem SizeInUse_le_Capacity (a : Arena) (l : list chunk) :
  reachable a -> chunks a = Some l -> total_lens l <= Go.maxInt ->
  Capacity a = total_lens l /\
  SizeInUse a = total_offsets l /\
  0 <= SizeInUse a <= Capacity a /\
  NumChunks a * ChunkSize a <= Capacity a /\
  Forall (fun c => ChunkSize a <= Go.len (buf c)) l.
Proof.
  intros Hr Hl Hsum.
  assert (Hnr : chunks a <> None) by congruence.
  destruct (reachable_live a Hr Hnr) as (l' & Hl' & _ & Hcs & Hall).
  rewrite Hl in Hl'. injection Hl' as <-.
  destruct (totals_bounds (chunkSize a) l (proj1 Hcs) Hall) as [Ht Hn].
  assert (EC : Capacity a = total_lens l).
  { unfold Capacity. rewrite Hl, sum_lens_exact by lia. lia. }
  assert (ES : SizeInUse a = total_offsets l).
  { unfold SizeInUse. rewrite Hl, (sum_offsets_exact (chunkSize a)) by (assumption || lia). lia. }
  rewrite EC, ES. unfold NumChunks, ChunkSize. rewrite Hl.
  repeat split; try lia.
  eapply Forall_impl; [exact Hall|]. intros c [_ [H _]]. exact H.
Qed.

Lemma SizeInUse_le_Capacity_witness :
  Capacity arena_16_and_100 = total_lens [mkChunk (replicate 16 x00) 0;
                                          mkChunk (replicate 100 x00) 100] /\
  SizeInUse arena_16_and_100 = total_offsets [mkChunk (replicate 16 x00) 0;
                                              mkChunk (replicate 100 x00) 100] /\
  0 <= SizeInUse arena_16_and_100 <= Capacity arena_16_and_100 /\
  NumChunks arena_16_and_100 * ChunkSize arena_16_and_100 <= Capacity arena_16_and_100 /\
  Forall (fun c => ChunkSize arena_16_and_100 <= Go.len (buf c))
         [mkChunk (replicate 16 x00) 0; mkChunk (replicate 100 x00) 100].
Proof.
  apply (SizeInUse_le_Capacity arena_16_and_100).
  - by_session 16 [CallAllocBytes 100].
  - reflexivity.
  - vm_compute. discriminate.
Defined.

Section TypedSlices.



Lemma imul_high (x y : Z) :
  Go.maxInt < x * y < Go.modulus -> imul x y < 0.
Proof.
  unfold imul, Go.to_int, Go.maxInt, Go.modulus, Go.wordBits. intros H.
  assert (E : (x * y + 2 ^ 63) mod 2 ^ 64 = x * y + 2 ^ 63 - 2 ^ 64).
  { symmetry. apply Z.mod_unique with (q := 1); lia. }
  rewrite E. lia.
Qed.

End TypedSlices.








(** X14. [AllocSlice] and [AllocSliceZeroed] never hand out a slice that
    is longer than the memory reserved for it.  For n <= 0 they return nil
    and leave the arena alone.  For n > 0 they panic when the byte size
    [sizeof(T) * n] is zero (a zero-sized T) or does not fit an [int] (the
    product wraps to a non-positive [int], or [unsafe.Slice] refuses it). *)
Theorem AllocSlice_never_undersized (a : Arena) (sizeofT n : Z) :
  0 <= sizeofT ->
  (n <= 0 ->
     AllocSlice sizeofT n a = TypedOk None a /\
     AllocSliceZeroed sizeofT n a = TypedOk None a) /\
  (0 < n -> sizeofT * n = 0 \/ Go.maxInt < sizeofT * n ->
     (exists p, AllocSlice sizeofT n a = TypedPanic p) /\
     (exists p, AllocSliceZeroed sizeofT n a = TypedPanic p)).
Proof.
  intros Hs. split.
  - intros Hn. unfold AllocSlice, AllocSliceZeroed.
    destruct (Z.leb_spec n 0) as [_|?]; [split; reflexivity|lia].
  - intros Hn Hp. unfold AllocSlice, AllocSliceZeroed.
    destruct (Z.leb_spec n 0) as [?|_]; [lia|]. cbv zeta.
    destruct (Z.lt_ge_cases (sizeofT * n) Go.modulus) as [Hlt|Hge].
    + assert (Hneg : imul sizeofT n <= 0).
      { destruct Hp as [E0|Hp]; [unfold imul; rewrite E0; vm_compute; discriminate|].
        pose proof (imul_high sizeofT n ltac:(lia)). lia. }
      unfold bind at 1 3. rewrite AllocBytes_nonpos by exact Hneg.
      cbn [slice_len]. change (0 >? 0) with false. cbv iota.
      unfold bind, ret, addr_of_first. cbn [slice_len].
      change (0 <? 0) with false. cbv iota. unfold throw. eauto.
    + assert (Hu : forall p, unsafe_Slice sizeofT p n = None).
      { intros p. unfold unsafe_Slice.
        destruct (Z.leb_spec Go.modulus (sizeofT * n)) as [_|?]; [|lia].
        rewrite orb_true_r. reflexivity. }
      split;
        match goal with
        | |- exists _, match ?m with Ok _ _ => _ | Panic _ => _ end = _ =>
            destruct m as [q a'|q]
        end; [rewrite Hu| |rewrite Hu|]; eauto.
Qed.

Lemma AllocSlice_never_undersized_witness :
  (0 <= 0 ->
     AllocSlice 8 0 arena_16_used_3 = TypedOk None arena_16_used_3 /\
     AllocSliceZeroed 8 0 arena_16_used_3 = TypedOk None arena_16_used_3) /\
  (0 < 2 ^ 61 + 1 -> 8 * (2 ^ 61 + 1) = 0 \/ Go.maxInt < 8 * (2 ^ 61 + 1) ->
     (exists p, AllocSlice 8 (2 ^ 61 + 1) arena_16_used_3 = TypedPanic p) /\
     (exists p, AllocSliceZeroed 8 (2 ^ 61 + 1) arena_16_used_3 = TypedPanic p)).
Proof.
  split.
  - intros _. apply (AllocSlice_never_undersized arena_16_used_3 8 0); lia.
  - apply (AllocSlice_never_undersized arena_16_used_3 8 (2 ^ 61 + 1)). lia.
Defined.






